(** * SearchCommand.tsx of the Sourcegraph extension, embedded in Rocq

    The development follows the source file from top to bottom:
    the query escaper and drill-down builder ([escapeRegexp],
    [makeDrilldownAction]), the list item of a search result
    ([SearchResultItem]), the two detail views ([MultiResultView],
    [ResultView] with [renderBlob]) and the search session ([useSearch]).

    JavaScript strings are sequences of UTF-16 code units; they are modelled
    as lists of code units, so that [String.prototype.replace], [trim],
    [endsWith], [Array.prototype.join] and [URLSearchParams.sort] see the
    same elements as they do in the source. *)

From Stdlib Require Import List String Ascii NArith ZArith Bool Lia DecimalString.
From Stdlib Require Import Sorted Permutation.
Import ListNotations.
Local Open Scope list_scope.

(* ================================================================== *)
(** ** The JavaScript values and built-ins the source relies on *)
(* ================================================================== *)

Module JS.

Definition codeUnit := N.
Definition jsstring := list codeUnit.

(** A string literal of the source; the literals embedded here are ASCII. *)
Definition lit (s : string) : jsstring :=
  map N_of_ascii (list_ascii_of_string s).
Arguments lit s%_string.

(** The line feed written [\n] inside the source's template literals. *)
Definition nl : jsstring := [10%N].

(** ToBoolean on the kinds of value the source tests:
    a string is truthy unless empty, a number unless zero,
    [undefined] and [null] are falsy. *)
Definition truthyString (s : jsstring) : bool :=
  match s with
  | [] => false
  | _ :: _ => true
  end.

Definition truthyNumber (n : Z) : bool := negb (n =? 0)%Z.

Definition truthyOpt {A : Type} (t : A -> bool) (o : option A) : bool :=
  match o with
  | Some a => t a
  | None => false
  end.

(** [o || ""] for an optional string [o]. *)
Definition orEmpty (o : option jsstring) : jsstring :=
  match o with
  | Some s => if truthyString s then s else []
  | None => []
  end.

(** Number-to-string of an integral number, as a template literal
    [`${n}`] renders it: decimal digits, a leading minus sign.  (JavaScript
    switches to exponent notation from 10^21 on; the counts, line numbers
    and sizes printed here are far below.) *)
Definition numberToString (n : Z) : jsstring :=
  lit (NilZero.string_of_int (Z.to_int n)).

(** [Array.prototype.join]. *)
Fixpoint join (sep : jsstring) (parts : list jsstring) : jsstring :=
  match parts with
  | [] => []
  | p :: rest =>
      match rest with
      | [] => p
      | _ :: _ => p ++ sep ++ join sep rest
      end
  end.

(** White space and line terminators of ECMAScript, the code units that
    [String.prototype.trim] strips. *)
Definition whiteSpace : list codeUnit :=
  [9; 10; 11; 12; 13; 32; 160; 5760;
   8192; 8193; 8194; 8195; 8196; 8197; 8198; 8199; 8200; 8201; 8202;
   8232; 8233; 8239; 8287; 12288; 65279]%N.

Definition isWhiteSpace (c : codeUnit) : bool := existsb (N.eqb c) whiteSpace.

Fixpoint trimStart (s : jsstring) : jsstring :=
  match s with
  | [] => []
  | c :: rest => if isWhiteSpace c then trimStart rest else s
  end.

Definition trimEnd (s : jsstring) : jsstring := rev (trimStart (rev s)).

Definition trim (s : jsstring) : jsstring := trimEnd (trimStart s).

(** A string that does not start with white space. *)
Definition startsClean (s : jsstring) : Prop :=
  match s with
  | [] => True
  | c :: _ => isWhiteSpace c = false
  end.

(** Equality of strings, code unit by code unit. *)
Fixpoint eqb (s t : jsstring) : bool :=
  match s, t with
  | [], [] => true
  | c :: s', d :: t' => N.eqb c d && eqb s' t'
  | _, _ => false
  end.

(** [String.prototype.startsWith] and [endsWith]. *)
Fixpoint startsWith (s prefix : jsstring) : bool :=
  match prefix, s with
  | [], _ => true
  | _ :: _, [] => false
  | p :: prefix', c :: s' => N.eqb c p && startsWith s' prefix'
  end.

Definition endsWith (s suffix : jsstring) : bool :=
  startsWith (rev s) (rev suffix).

(** Comparison of two strings by code units, the order of
    [URLSearchParams.sort]. *)
Fixpoint ltb (s t : jsstring) : bool :=
  match s, t with
  | _, [] => false
  | [], _ :: _ => true
  | c :: s', d :: t' =>
      if (c <? d)%N then true
      else if (d <? c)%N then false
      else ltb s' t'
  end.

(** A regular expression that is one character class of literal code units,
    the only shape the source uses, with the global flag; and a replacement
    pattern made of literal text and [$&], the matched substring. *)
Inductive ReplacementPiece :=
| Literal (text : jsstring)
| Matched.

Definition expandReplacement (pattern : list ReplacementPiece) (matched : jsstring)
  : jsstring :=
  flat_map (fun p => match p with
                     | Literal text => text
                     | Matched => matched
                     end) pattern.

Definition classMatches (class : list codeUnit) (c : codeUnit) : bool :=
  existsb (N.eqb c) class.

(** [text.replace(/[class]/g, pattern)]: the text is scanned from the left,
    every code unit the class matches is replaced by the expanded pattern,
    every other code unit is copied. *)
Fixpoint replaceClassGlobal (class : list codeUnit) (pattern : list ReplacementPiece)
  (text : jsstring) : jsstring :=
  match text with
  | [] => []
  | c :: rest =>
      (if classMatches class c then expandReplacement pattern [c] else [c])
        ++ replaceClassGlobal class pattern rest
  end.

End JS.
Import JS.

(* ================================================================== *)
(** ** Query escaper and drill-down builder *)
(* ================================================================== *)

Module Query.

(** [const regexpRe = /[-\\^$*+?.()|[\]{}]/g]: the members of the class, in
    the order they are written; the backslash and the closing bracket are
    written escaped in the source. *)
Definition regexpRe : list codeUnit := lit "-\^$*+?.()|[]{}".

(** [text.replace(regexpRe, "\\$&")]. *)
Definition escapeRegexp (text : jsstring) : jsstring :=
  replaceClassGlobal regexpRe [Literal (lit "\"); Matched] text.

Record DrilldownOpts := {
  repo : option jsstring;
  revision : option jsstring;
  file : option jsstring
}.

(** The [clauses] array of [makeDrilldownAction] once both [if]s have run. *)
Definition drilldownClauses (opts : DrilldownOpts) : list jsstring :=
  let clauses := [] in
  let clauses :=
    match repo opts with
    | Some r =>
        if truthyString r then
          let repoQuery := lit "r:^" ++ escapeRegexp r ++ lit "$" in
          let repoQuery :=
            match revision opts with
            | Some v => if truthyString v then repoQuery ++ lit "@" ++ v else repoQuery
            | None => repoQuery
            end in
          clauses ++ [repoQuery]
        else clauses
    | None => clauses
    end in
  match file opts with
  | Some f =>
      if truthyString f then clauses ++ [lit "f:" ++ escapeRegexp f] else clauses
  | None => clauses
  end.

(** [clauses.join(" ")], the drill-down query the spec calls
    buildDrilldownClauses. *)
Definition buildDrilldownClauses (opts : DrilldownOpts) : jsstring :=
  join (lit " ") (drilldownClauses opts).

(** The [Action] element [makeDrilldownAction] returns: its title and the
    text its [onAction] hands to [setSearchText]. *)
Record DrilldownAction := {
  actionTitle : jsstring;
  onActionSearchText : jsstring
}.

Definition makeDrilldownAction (name : jsstring) (opts : DrilldownOpts)
  : DrilldownAction :=
  {| actionTitle := name;
     onActionSearchText := buildDrilldownClauses opts ++ lit " " |}.

(** The metacharacters as the specification lists them:
    [- \ ^ $ * + ? . ( ) | [ ] { }]. *)
Definition metacharacters : list codeUnit :=
  map N_of_ascii
    ["-"; "\"; "^"; "$"; "*"; "+"; "?"; "."; "("; ")"; "|"; "["; "]"; "{"; "}"]%char.

Definition backslash : codeUnit := N_of_ascii "\"%char.

(** buildDrilldownClauses as the specification words it: a clause for a
    repo that is present, the revision appended when present, a clause for
    a file that is present. *)
Definition buildDrilldownClauses_spec (opts : DrilldownOpts) : jsstring :=
  let repoClause :=
    match repo opts with
    | Some r =>
        [lit "r:^" ++ escapeRegexp r ++ lit "$"
           ++ match revision opts with
              | Some v => lit "@" ++ v
              | None => []
              end]
    | None => []
    end in
  let fileClause :=
    match file opts with
    | Some f => [lit "f:" ++ escapeRegexp f]
    | None => []
    end in
  join (lit " ") (repoClause ++ fileClause).

(** An optional string with the empty string read as absent, the way the
    truthiness tests of [makeDrilldownAction] read it. *)
Definition nonEmpty (o : option jsstring) : option jsstring :=
  match o with
  | Some (c :: s) => Some (c :: s)
  | _ => None
  end.

Definition nonEmptyOpts (opts : DrilldownOpts) : DrilldownOpts :=
  {| repo := nonEmpty (repo opts);
     revision := nonEmpty (revision opts);
     file := nonEmpty (file opts) |}.

End Query.

(* ================================================================== *)
(** ** Search results and their list item *)
(* ================================================================== *)

Module Dispatch.
Import Query.

(** The match types of [../sourcegraph/stream-search/stream], with the
    fields this file reads.  [repository] and [repoStars] are read on every
    variant; [match.type] is the constructor of the body.  Optional flags
    ([fork?], [archived?], [private?]) are read through their truthiness
    only and are booleans here. *)
Record LineMatch := {
  line : jsstring;
  lineNumber : Z
}.

Record SymbolEntry := {
  url : jsstring;
  name : jsstring;
  containerName : jsstring;
  kind : jsstring
}.

Inductive MatchBody :=
| MRepo (description : option jsstring) (fork archived private : bool)
        (branches : option (list jsstring))
| MCommit (message authorName authorDate oid : jsstring)
| MPath (path : jsstring) (commit : option jsstring)
| MContent (path : jsstring) (lineMatches : list LineMatch)
| MSymbol (path : jsstring) (symbols : list SymbolEntry).

Record Match := {
  repository : jsstring;
  repoStars : option Z;
  body : MatchBody
}.

(** [match.type]. *)
Definition type (m : Match) : jsstring :=
  match body m with
  | MRepo _ _ _ _ _ => lit "repo"
  | MCommit _ _ _ _ => lit "commit"
  | MPath _ _ => lit "path"
  | MContent _ _ => lit "content"
  | MSymbol _ _ => lit "symbol"
  end.

Record SearchResult := {
  resultUrl : jsstring;
  match_ : Match
}.

Inductive IconSource :=
| Dot | Circle | XmarkCircle | MemoryChip | TextDocument | Text | Link | Star.

Inductive Color := ColorDefault | ColorPrivate.

Record ImageLike := {
  source : IconSource;
  tintColor : Color
}.

Definition setSource (i : ImageLike) (s : IconSource) : ImageLike :=
  {| source := s; tintColor := tintColor i |}.

Definition setTintColor (i : ImageLike) (c : Color) : ImageLike :=
  {| source := source i; tintColor := c |}.

Record Accessory := {
  text : jsstring;
  accessoryIcon : option IconSource
}.

(** What [SearchResultItem] hands to [List.Item], and the local [accessory]
    it derives [accessories] from. *)
Record ItemView := {
  title : jsstring;
  subtitle : jsstring;
  accessory : Accessory;
  accessories : list Accessory;
  icon : ImageLike;
  drilldownAction : option DrilldownAction
}.

(** The body of [SearchResultItem]: the locals are initialised, the
    [switch] over [match.type] assigns them case by case (it has five
    cases and no [default]), and [accessory] is pushed when its text or
    its icon is truthy. *)
Definition SearchResultItem (searchResult : SearchResult) : ItemView :=
  let m := match_ searchResult in
  let title0 : jsstring := [] in
  let subtitle0 : jsstring := [] in
  let accessory0 := {| text := repository m; accessoryIcon := None |} in
  let icon0 := {| source := Dot; tintColor := ColorDefault |} in
  let '(title1, subtitle1, accessory1, icon1, drilldown1) :=
    match body m with
    | MRepo description fork archived private _ =>
        let icon := if fork then setSource icon0 Circle else icon0 in
        let icon := if archived then setSource icon XmarkCircle else icon in
        let icon := if private then setTintColor icon ColorPrivate else icon in
        let accessory :=
          match repoStars m with
          | Some stars =>
              if truthyNumber stars
              then {| text := numberToString stars; accessoryIcon := Some Star |}
              else {| text := []; accessoryIcon := accessoryIcon accessory0 |}
          | None => {| text := []; accessoryIcon := accessoryIcon accessory0 |}
          end in
        (repository m, orEmpty description, accessory, icon,
         makeDrilldownAction (lit "Search Repository")
           {| repo := Some (repository m); revision := None; file := None |})
    | MCommit message _ authorDate oid =>
        (message, authorDate, accessory0, setSource icon0 MemoryChip,
         makeDrilldownAction (lit "Search Revision")
           {| repo := Some (repository m); revision := Some oid; file := None |})
    | MPath path _ =>
        (path, subtitle0, accessory0, setSource icon0 TextDocument,
         makeDrilldownAction (lit "Search File")
           {| repo := Some (repository m); revision := None; file := Some path |})
    | MContent path lineMatches =>
        (join (lit " ... ") (map (fun l => trim (line l)) lineMatches),
         path, accessory0, setSource icon0 Text,
         makeDrilldownAction (lit "Search File")
           {| repo := Some (repository m); revision := None; file := Some path |})
    | MSymbol path symbols =>
        (join (lit ", ") (map (fun s => name s) symbols),
         path, accessory0, setSource icon0 Link,
         makeDrilldownAction (lit "Search File")
           {| repo := Some (repository m); revision := None; file := Some path |})
    end in
  let accessories :=
    if truthyString (text accessory1)
       || match accessoryIcon accessory1 with Some _ => true | None => false end
    then [accessory1] else [] in
  {| title := title1;
     subtitle := subtitle1;
     accessory := accessory1;
     accessories := accessories;
     icon := icon1;
     drilldownAction := Some drilldown1 |}.

(** The accessory of a repository result as the specification words it:
    the star count if present, else empty. *)
Definition starAccessoryText_spec (m : Match) : jsstring :=
  match repoStars m with
  | Some stars => numberToString stars
  | None => []
  end.

End Dispatch.

(* ================================================================== *)
(** ** Detail views *)
(* ================================================================== *)

Module Detail.
Import Dispatch.

(** *** URLs

    A [URL] object after [new URL(url)]: its query is the list of decoded
    name-value pairs [searchParams] works on; what stands before the query
    and the fragment are carried along unread. *)
Record URL := {
  beforeQuery : jsstring;
  searchParams : list (jsstring * jsstring);
  hash : jsstring
}.

(** The platform's URL parser ([new URL]) and serializer ([toString]);
    the source calls them and does not define them. *)
Class UrlPlatform := {
  parseURL : jsstring -> URL;
  serializeURL : URL -> jsstring
}.

(** [URLSearchParams.set]: the first pair named [key] takes the value and
    the other pairs of that name are removed; without such a pair, one is
    appended. *)
Definition hasName (key : jsstring) (p : jsstring * jsstring) : bool :=
  JS.eqb (fst p) key.

Fixpoint setFirst (key value : jsstring) (params : list (jsstring * jsstring))
  : list (jsstring * jsstring) :=
  match params with
  | [] => []
  | p :: rest =>
      if hasName key p
      then (key, value) :: filter (fun q => negb (hasName key q)) rest
      else p :: setFirst key value rest
  end.

Definition paramsSet (key value : jsstring) (params : list (jsstring * jsstring))
  : list (jsstring * jsstring) :=
  if existsb (hasName key) params
  then setFirst key value params
  else params ++ [(key, value)].

(** [URLSearchParams.sort]: a stable sort of the pairs by the code units of
    their names.  Each pair is inserted, from the last to the first, before
    the first pair whose name is not smaller, so pairs of equal names keep
    their order. *)
Fixpoint insertParam (p : jsstring * jsstring) (sorted : list (jsstring * jsstring))
  : list (jsstring * jsstring) :=
  match sorted with
  | [] => [p]
  | q :: rest =>
      if JS.ltb (fst q) (fst p) then q :: insertParam p rest
      else p :: q :: rest
  end.

Definition paramsSort (params : list (jsstring * jsstring))
  : list (jsstring * jsstring) :=
  fold_right insertParam [] params.

(** The two mutations [urlWithLineNumber] applies to the parsed URL. *)
Definition withLineNumber (parsed : URL) (line : Z) : URL :=
  let params := paramsSet (lit "L" ++ numberToString line) [] (searchParams parsed) in
  {| beforeQuery := beforeQuery parsed;
     searchParams := paramsSort params;
     hash := hash parsed |}.

Definition urlWithLineNumber `{UrlPlatform} (url : jsstring) (line : Z) : jsstring :=
  serializeURL (withLineNumber (parseURL url) line).

(** One [List.Item] of [MultiResultView]: its title, optional subtitle,
    and the URL its result actions open and copy (the accessory text is
    left out). *)
Record SubItem := {
  itemTitle : jsstring;
  itemSubtitle : option jsstring;
  itemUrl : jsstring
}.

(** [MultiResultView], for the two match types it is called with; the
    other three yield no items (the component's [switch] has no case for
    them and its argument type excludes them). *)
Definition MultiResultView `{UrlPlatform} (url : jsstring) (m : Match) : list SubItem :=
  match body m with
  | MContent _ lineMatches =>
      map (fun l =>
             {| itemTitle := line l;
                itemSubtitle := None;
                itemUrl := urlWithLineNumber url (lineNumber l) |})
          lineMatches
  | MSymbol _ symbols =>
      map (fun s =>
             {| itemTitle := name s;
                itemSubtitle := Some (containerName s);
                itemUrl := Dispatch.url s |})
          symbols
  | _ => []
  end.

(** The first query parameter of a URL object, if it has one. *)
Definition firstParamName (u : URL) : option jsstring :=
  match searchParams u with
  | [] => None
  | p :: _ => Some (fst p)
  end.

(** *** Blobs

    The helpers of [../markdown]; the source imports them. *)
Class Markdown := {
  bold : jsstring -> jsstring;
  codeBlock : jsstring -> jsstring;
  quoteBlock : jsstring -> jsstring
}.

(** [BlobContents] of the GraphQL schema, with the fields [renderBlob]
    reads.  [byteSize] is a GraphQL [Int]. *)
Record BlobContents := {
  path : jsstring;
  content : jsstring;
  byteSize : Z;
  binary : bool
}.

(** [blob.byteSize / 1024].  Dividing an integer below 2^53 by 1024 is
    exact in binary floating point, so the quotient is the fraction
    itself, kept by its numerator. *)
Record Over1024 := { numerator : Z }.

Definition div1024 (n : Z) : Over1024 := {| numerator := n |}.

(** [q > k] for an integer [k]. *)
Definition greaterThan (q : Over1024) (k : Z) : bool :=
  (k * 1024 <? numerator q)%Z.

(** The decimal digits of [r / 1024] after the point, for [0 <= r < 1024],
    by long division; the expansion ends within ten digits. *)
Fixpoint fractionDigits (fuel : nat) (r : Z) : jsstring :=
  match fuel with
  | O => []
  | S fuel' =>
      if (r =? 0)%Z then []
      else (Z.to_N (48 + (r * 10) / 1024)) :: fractionDigits fuel' ((r * 10) mod 1024)
  end.

(** Number-to-string of [q]: the exact decimal expansion.  For a numerator
    in the range of a GraphQL [Int] this is the shortest decimal that reads
    back as the same number, which is what a template literal prints. *)
Definition over1024ToString (q : Over1024) : jsstring :=
  let n := numerator q in
  let a := Z.abs n in
  (if (n <? 0)%Z then lit "-" else [])
    ++ numberToString (a / 1024)
    ++ (if (a mod 1024 =? 0)%Z then []
        else lit "." ++ fractionDigits 10 (a mod 1024)).

Definition renderBlob `{Markdown} (blob : option BlobContents) : jsstring :=
  match blob with
  | None => quoteBlock (lit "Blob not found")
  | Some blob =>
      if binary blob
      then quoteBlock (lit "File preview is not yet supported for binary files.")
      else if truthyString (content blob) then
        let blobSizeKB := div1024 (byteSize blob) in
        if greaterThan blobSizeKB 50
        then quoteBlock (lit "File too large to render ("
                           ++ over1024ToString blobSizeKB ++ lit "KB)")
        else if endsWith (path blob) (lit ".md")
             then content blob
             else codeBlock (content blob)
      else quoteBlock (lit "No content found")
  end.

(** *** The result view

    The state of the lazy query [useLazyQuery] returns: whether it was
    called, its data, its error (as [`${error}`] prints it). *)
Record CommitData := { blob : option BlobContents }.
Record RepositoryData := { commit : option CommitData }.
Record GetFileContents := { repository : option RepositoryData }.

Record QueryResult := {
  called : bool;
  data : option GetFileContents;
  error : option jsstring
}.

(** [data.repository?.commit?.blob]. *)
Definition blobOf (d : GetFileContents) : option BlobContents :=
  match repository d with
  | Some r =>
      match commit r with
      | Some c => blob c
      | None => None
      end
  | None => None
  end.

Record GetFileContentsVariables := {
  varRepo : jsstring;
  varRev : jsstring;
  varPath : jsstring
}.

(** What [ResultView] renders: the multi-result list, or a [Detail] with
    its navigation title and markdown; and the query it fires while
    rendering, if any.  Metadata and actions of the [Detail] are left out,
    and so is the [default] case of the [switch], which no match type
    reaches. *)
Inductive View :=
| MultiView (items : list SubItem)
| DetailView (navigationTitle markdown : jsstring).

Record Rendering := {
  view : View;
  fired : option GetFileContentsVariables
}.

(** [match.branches?.[0] || ""]. *)
Definition firstBranch (branches : option (list jsstring)) : jsstring :=
  match branches with
  | Some (b :: _) => orEmpty (Some b)
  | _ => []
  end.

Definition ResultView `{UrlPlatform} `{Markdown}
  (searchResult : SearchResult) (fileContents : QueryResult) : Rendering :=
  let m := match_ searchResult in
  let navigationTitle := lit "View " ++ type m ++ lit " result" in
  let markdownTitle := bold (Dispatch.repository m) in
  let detail (markdownContent : jsstring) (q : option GetFileContentsVariables) :=
    {| view := DetailView navigationTitle (markdownTitle ++ nl ++ nl ++ markdownContent);
       fired := q |} in
  match body m with
  | MContent _ _ | MSymbol _ _ =>
      {| view := MultiView (MultiResultView (resultUrl searchResult) m);
         fired := None |}
  | MRepo description _ _ _ branches =>
      let markdownContent := orEmpty description in
      if negb (called fileContents) then
        detail markdownContent
          (Some {| varRepo := Dispatch.repository m;
                   varRev := firstBranch branches;
                   varPath := lit "README.md" |})
      else
        match data fileContents with
        | Some d =>
            detail (markdownContent ++ nl ++ nl ++ lit "---" ++ nl ++ nl
                      ++ renderBlob (blobOf d)) None
        | None => detail markdownContent None
        end
  | MPath path commit =>
      let markdownContent := codeBlock path ++ nl ++ nl ++ lit "---" ++ nl ++ nl in
      if negb (called fileContents) then
        detail markdownContent
          (Some {| varRepo := Dispatch.repository m;
                   varRev := orEmpty commit;
                   varPath := path |})
      else
        match data fileContents with
        | Some d => detail (markdownContent ++ renderBlob (blobOf d)) None
        | None =>
            match error fileContents with
            | Some e =>
                detail (markdownContent
                          ++ quoteBlock (lit "Failed to fetch file: " ++ e)) None
            | None => detail markdownContent None
            end
        end
  | MCommit message _ _ _ => detail message None
  end.

(** The markdown of a rendering, empty for the multi-result list. *)
Definition markdownOf (r : Rendering) : jsstring :=
  match view r with
  | DetailView _ markdown => markdown
  | MultiView _ => []
  end.

(** [needle] occurs in [s]. *)
Fixpoint includes (s needle : jsstring) : bool :=
  startsWith s needle
  || match s with
     | [] => false
     | _ :: rest => includes rest needle
     end.

(** *** Reading a printed size back

    The value of a decimal digit, and the number a run of digits spells
    when read after [acc]. *)
Definition digitOf (c : codeUnit) : option Z :=
  if (48 <=? c)%N && (c <=? 57)%N then Some (Z.of_N c - 48)%Z else None.

Fixpoint decimalNumerator (digits : jsstring) (acc : Z) : option Z :=
  match digits with
  | [] => Some acc
  | c :: rest =>
      match digitOf c with
      | Some d => decimalNumerator rest (acc * 10 + d)%Z
      | None => None
      end
  end.

(** [digits], read as the decimals after a point, are exactly [r / 1024],
    and there is no trailing zero: with [k] digits spelling the number [v],
    [v / 10^k = r / 1024]. *)
Definition denotesFraction (digits : jsstring) (r : Z) : bool :=
  match decimalNumerator digits 0 with
  | Some v =>
      (v * 1024 =? r * 10 ^ Z.of_nat (List.length digits))%Z
        && negb (N.eqb (last digits 49%N) 48%N)
  | None => false
  end.

(** [size] is the decimal text of [byteSize / 1024]: the whole kilobytes
    printed as an integer, then, when bytes remain, a point and the
    decimals that are exactly the remainder over 1024. *)
Definition measuredKB (size : jsstring) (byteSize : Z) : Prop :=
  exists digits,
    denotesFraction digits (byteSize mod 1024) = true
    /\ size = numberToString (byteSize / 1024)
                ++ match digits with
                   | [] => []
                   | _ :: _ => lit "." ++ digits
                   end.

(** The largest GraphQL [Int]. *)
Definition maxInt : Z := 2147483647.

End Detail.

(* ================================================================== *)
(** ** The search session ([useSearch]) *)
(* ================================================================== *)

Module Session.
Import Dispatch.

Inductive PatternType := literal | regexp | structural.

Record Suggestion := {
  suggestionTitle : jsstring;
  suggestionDescription : option jsstring;
  query : option jsstring
}.

Record Alert := {
  alertTitle : jsstring;
  alertDescription : option jsstring
}.

(** [Progress] of [../sourcegraph/stream-search]: the count is a number,
    the duration is whatever the template literal prints for it. *)
Record Progress := {
  matchCount : Z;
  duration : jsstring
}.

Record SearchState := {
  results : list SearchResult;
  suggestions : list Suggestion;
  summary : option jsstring;
  isLoading : bool
}.

(** [ExpandableErrorToast(push, navigationTitle, title, description).show()]:
    the notification shown, by its three texts. *)
Record Toast := {
  toastNavigationTitle : jsstring;
  toastTitle : jsstring;
  toastDescription : jsstring
}.

(** The hook's memory between renders: the React state, the controller in
    [cancelRef.current], the controllers [abort()] was called on, the
    [performSearch] invocations made so far, and the toasts shown.  A
    controller is named by the number of the [search()] call that created
    it: the generation. *)
Record Session := {
  state : SearchState;
  cancelRef : option nat;
  aborted : list nat;
  performed : list (jsstring * PatternType);
  toasts : list Toast
}.

Definition initialState : SearchState :=
  {| results := []; suggestions := []; summary := Some []; isLoading := false |}.

Definition initial : Session :=
  {| state := initialState;
     cancelRef := None;
     aborted := [];
     performed := [];
     toasts := [] |}.

(** [setState(update)] with a functional update. *)
Definition setState (update : SearchState -> SearchState) (s : Session) : Session :=
  {| state := update (state s);
     cancelRef := cancelRef s;
     aborted := aborted s;
     performed := performed s;
     toasts := toasts s |}.

Definition show (t : Toast) (s : Session) : Session :=
  {| state := state s;
     cancelRef := cancelRef s;
     aborted := aborted s;
     performed := performed s;
     toasts := toasts s ++ [t] |}.

(** The four callbacks [search] hands to [performSearch]. *)
Inductive Callback :=
| onResults (batch : list SearchResult)
| onSuggestions (batch : list Suggestion) (pushToTop : bool)
| onAlert (alert : Alert)
| onProgress (progress : Progress).

(** How the promise [performSearch] returned settles; a rejection carries
    [String(error)]. *)
Inductive Outcome :=
| Resolved
| Rejected (error : jsstring).

(** What happens to the hook, one event at a time: the component calls
    [search], the transport invokes a callback it was given by the call of
    generation [g], or the promise of generation [g] settles and the rest
    of that call's body runs. *)
Inductive Event :=
| CallSearch (searchText : jsstring) (pattern : PatternType)
| Deliver (g : nat) (cb : Callback)
| Settle (g : nat) (o : Outcome).

(** [search] up to its [await]: abort the controller in [cancelRef], hold a
    fresh one, reset the state, call [performSearch]. *)
Definition search (searchText : jsstring) (pattern : PatternType) (s : Session)
  : Session :=
  let aborted' :=
    match cancelRef s with
    | Some previous => previous :: aborted s
    | None => aborted s
    end in
  let g := List.length (performed s) in
  {| state := {| results := [];
                 suggestions := [];
                 summary := None;
                 isLoading := true |};
     cancelRef := Some g;
     aborted := aborted';
     performed := performed s ++ [(searchText, pattern)];
     toasts := toasts s |}.

(** The bodies of the four callbacks.  None of them reads the controller or
    its signal. *)
Definition fold (cb : Callback) (s : Session) : Session :=
  match cb with
  | onResults batch =>
      setState (fun oldState =>
                  {| results := results oldState ++ batch;
                     suggestions := suggestions oldState;
                     summary := summary oldState;
                     isLoading := isLoading oldState |}) s
  | onSuggestions batch pushToTop =>
      setState (fun oldState =>
                  {| results := results oldState;
                     suggestions := if pushToTop
                                    then batch ++ suggestions oldState
                                    else suggestions oldState ++ batch;
                     summary := summary oldState;
                     isLoading := isLoading oldState |}) s
  | onAlert alert =>
      show {| toastNavigationTitle := lit "Alert";
              toastTitle := alertTitle alert;
              toastDescription := orEmpty (alertDescription alert) |} s
  | onProgress progress =>
      setState (fun oldState =>
                  {| results := results oldState;
                     suggestions := suggestions oldState;
                     summary := Some (numberToString (matchCount progress)
                                        ++ lit " results in " ++ duration progress);
                     isLoading := isLoading oldState |}) s
  end.

Definition stopLoading (oldState : SearchState) : SearchState :=
  {| results := results oldState;
     suggestions := suggestions oldState;
     summary := summary oldState;
     isLoading := false |}.

(** [search] after its [await]: the statement after [performSearch] when
    the promise resolves, the [catch] block when it rejects. *)
Definition settle (o : Outcome) (s : Session) : Session :=
  match o with
  | Resolved => setState stopLoading s
  | Rejected error =>
      setState stopLoading
        (show {| toastNavigationTitle := lit "Unexpected error";
                 toastTitle := lit "Search failed";
                 toastDescription := error |} s)
  end.

Definition step (s : Session) (e : Event) : Session :=
  match e with
  | CallSearch searchText pattern => search searchText pattern s
  | Deliver _ cb => fold cb s
  | Settle _ o => settle o s
  end.

Definition run (s : Session) (trace : list Event) : Session :=
  fold_left step trace s.

(** *** The session the specification describes

    The same session with the guard the specification asks for: an event
    is folded only while its generation is the current one. *)
Definition isCurrent (g : nat) (s : Session) : bool :=
  match cancelRef s with
  | Some current => Nat.eqb current g
  | None => false
  end.

Definition step_guarded (s : Session) (e : Event) : Session :=
  match e with
  | CallSearch searchText pattern => search searchText pattern s
  | Deliver g cb => if isCurrent g s then fold cb s else s
  | Settle g o => if isCurrent g s then settle o s else s
  end.

Definition run_guarded (s : Session) (trace : list Event) : Session :=
  fold_left step_guarded trace s.

(** The result batches the callbacks of generation [g] were handed. *)
Definition resultsOfGeneration (g : nat) (trace : list Event) : list SearchResult :=
  flat_map (fun e => match e with
                     | Deliver g' (onResults batch) =>
                         if Nat.eqb g' g then batch else []
                     | _ => []
                     end) trace.

(** No stale write, on the results: what the final state lists is what the
    current generation delivered. *)
Definition noStaleResults (trace : list Event) : Prop :=
  forall g, cancelRef (run initial trace) = Some g ->
            results (state (run initial trace)) = resultsOfGeneration g trace.

(** A transport that stops on abort: it invokes a callback only while the
    generation the callback was given to is the current one. *)
Definition deliverable (s : Session) (e : Event) : bool :=
  match e with
  | Deliver g _ => isCurrent g s
  | _ => true
  end.

Fixpoint deliversWhileCurrent (s : Session) (trace : list Event) : bool :=
  match trace with
  | [] => true
  | e :: rest => deliverable s e && deliversWhileCurrent (step s e) rest
  end.

(** The fields the three folding callbacks write. *)
Definition folded (st : SearchState)
  : list SearchResult * list Suggestion * option jsstring :=
  (results st, suggestions st, summary st).

(** The session of the source and the guarded session agree on the current
    controller, the calls made and the folded fields. *)
Definition agree (s s' : Session) : Prop :=
  cancelRef s = cancelRef s'
  /\ performed s = performed s'
  /\ folded (state s) = folded (state s').

(** A superseded generation's outcome is discarded silently: neither the
    state nor the toasts change when it settles. *)
Definition discardsSilently (s : Session) (g : nat) (o : Outcome) : Prop :=
  state (step s (Settle g o)) = state s /\ toasts (step s (Settle g o)) = toasts s.

End Session.

(* ================================================================== *)
(** ** Concrete inputs *)
(* ================================================================== *)

Module Samples.
Import Query Detail Session Dispatch.

(** A plain rendering of the three markdown helpers, to run the views on
    concrete inputs. *)
Definition plainMarkdown : Markdown :=
  {| bold := fun s => lit "**" ++ s ++ lit "**";
     codeBlock := fun s => lit "```" ++ nl ++ s ++ nl ++ lit "```";
     quoteBlock := fun s => lit "> " ++ s |}.

(** A repository result whose star count is zero. *)
Definition zeroStars : SearchResult :=
  {| resultUrl := lit "https://sourcegraph.com/github.com/a/b";
     match_ := {| repository := lit "github.com/a/b";
                  repoStars := Some 0%Z;
                  body := MRepo (Some (lit "a library")) false false false None |} |}.

(** A repository result that is both a fork and archived, with stars. *)
Definition archivedFork : SearchResult :=
  {| resultUrl := lit "https://sourcegraph.com/github.com/a/b";
     match_ := {| repository := lit "github.com/a/b";
                  repoStars := Some 42%Z;
                  body := MRepo None true true false None |} |}.

(** Drill-down options whose repo is present and empty. *)
Definition emptyRepo : DrilldownOpts :=
  {| repo := Some []; revision := None; file := None |}.

Definition repoRevisionFile : DrilldownOpts :=
  {| repo := Some (lit "github.com/a/b");
     revision := Some (lit "v1");
     file := Some (lit "cmd/main.go") |}.

(** A parsed result URL that already carries a query parameter whose name
    sorts before [L5]. *)
Definition blobUrlWithParam : URL :=
  {| beforeQuery := lit "https://sourcegraph.com/github.com/a/b/-/blob/f.go";
     searchParams := [(lit "A", lit "1")];
     hash := [] |}.

(** The same URL with the UTM parameter the source's comment speaks of. *)
Definition blobUrlWithUtm : URL :=
  {| beforeQuery := lit "https://sourcegraph.com/github.com/a/b/-/blob/f.go";
     searchParams := [(lit "utm_source", lit "raycast")];
     hash := [] |}.

(** A text file of 60KB. *)
Definition sixtyKB : BlobContents :=
  {| path := lit "big.txt";
     content := lit "lorem";
     byteSize := 61440%Z;
     binary := false |}.

Definition smallReadme : BlobContents :=
  {| path := lit "README.md";
     content := lit "# b";
     byteSize := 3%Z;
     binary := false |}.

Definition smallGo : BlobContents :=
  {| path := lit "main.go";
     content := lit "package main";
     byteSize := 12%Z;
     binary := false |}.

Definition emptyFile : BlobContents :=
  {| path := lit "empty.txt"; content := []; byteSize := 0%Z; binary := false |}.

Definition binaryFile : BlobContents :=
  {| path := lit "logo.png"; content := lit "PNG"; byteSize := 3%Z; binary := true |}.

(** A repository result and a lazy query that was called and failed. *)
Definition repoResult : SearchResult :=
  {| resultUrl := lit "https://sourcegraph.com/github.com/a/b";
     match_ := {| repository := lit "github.com/a/b";
                  repoStars := None;
                  body := MRepo (Some (lit "a library")) false false false
                                (Some [lit "main"]) |} |}.

Definition failedQuery : QueryResult :=
  {| called := true; data := None; error := Some (lit "Error: Network error") |}.

(** The scenario of the specification: [search("foo", "literal")], then
    [search("bar", "regexp")] before the first stream delivers anything,
    then both streams deliver a batch. *)
Definition fooResult : SearchResult :=
  {| resultUrl := lit "https://sourcegraph.com/github.com/a/foo";
     match_ := {| repository := lit "github.com/a/foo";
                  repoStars := None;
                  body := MPath (lit "foo.go") None |} |}.

Definition barResult : SearchResult :=
  {| resultUrl := lit "https://sourcegraph.com/github.com/a/bar";
     match_ := {| repository := lit "github.com/a/bar";
                  repoStars := None;
                  body := MPath (lit "bar.go") None |} |}.

Definition twoSearches : list Event :=
  [CallSearch (lit "foo") literal; CallSearch (lit "bar") regexp].

Definition lateDelivery : list Event :=
  twoSearches ++ [Deliver 0 (onResults [fooResult]); Deliver 1 (onResults [barResult])].

(** A transport that stops on abort: the first stream delivers before it is
    superseded and nothing afterwards. *)
Definition promptDelivery : list Event :=
  [CallSearch (lit "foo") literal; Deliver 0 (onResults [fooResult]);
   CallSearch (lit "bar") regexp; Deliver 1 (onResults [barResult]);
   Settle 1 Resolved].

End Samples.

(* ================================================================== *)
(** ** The command and its suggestion items *)
(* ================================================================== *)

Module Command.
Import Query Detail Session Dispatch.

(** [Sourcegraph] of [../sourcegraph], with the two settings this file
    reads, and the two helpers it imports from there. *)
Record Sourcegraph := {
  defaultContext : option jsstring;
  searchPatternDropdown : bool
}.

Class SourcegraphLib := {
  instanceName : Sourcegraph -> jsstring;
  newURL : Sourcegraph -> jsstring -> option (list (jsstring * jsstring)) -> jsstring
}.

(** [getQueryURL]. *)
Definition getQueryURL `{SourcegraphLib} (src : Sourcegraph) (query : jsstring)
  : jsstring :=
  newURL src (lit "/search") (Some [(lit "q", query)]).

(** The initial values of the two [useState] hooks of [SearchCommand]. *)
Definition initialSearchText (src : Sourcegraph) : jsstring :=
  match defaultContext src with
  | Some c => if truthyString c then lit "context:" ++ c ++ lit " " else []
  | None => []
  end.

Definition initialPatternType (src : Sourcegraph) : option PatternType :=
  if searchPatternDropdown src then None else Some literal.

(** [SuggestionItem]: its texts, its icon, and what its one action does:
    it hands a new text to [setSearchText], or it pushes a [Detail] with
    the given markdown. *)
Inductive SuggestionIcon := Binoculars | ExclamationMark.
Inductive SuggestionTint := TintDefault | TintEmphasis.

Inductive SuggestionAction :=
| ApplySuggestion (newSearchText : jsstring)
| ViewSuggestion (markdown : jsstring).

Record SuggestionItemView := {
  suggestionItemTitle : jsstring;
  suggestionItemSubtitle : option jsstring;
  suggestionItemIcon : SuggestionIcon * SuggestionTint;
  suggestionItemAction : SuggestionAction
}.

Definition SuggestionItem (searchText : jsstring) (suggestion : Suggestion)
  : SuggestionItemView :=
  let actionable := truthyOpt truthyString (query suggestion) in
  {| suggestionItemTitle := suggestionTitle suggestion;
     suggestionItemSubtitle := suggestionDescription suggestion;
     suggestionItemIcon :=
       (if actionable then Binoculars else ExclamationMark,
        if actionable then TintDefault else TintEmphasis);
     suggestionItemAction :=
       match query suggestion with
       | Some q =>
           if truthyString q
           then ApplySuggestion (searchText ++ lit " " ++ q)
           else ViewSuggestion
                  (suggestionTitle suggestion
                     ++ match suggestionDescription suggestion with
                        | Some d => if truthyString d then nl ++ nl ++ d else []
                        | None => []
                        end)
       | None =>
           ViewSuggestion
             (suggestionTitle suggestion
                ++ match suggestionDescription suggestion with
                   | Some d => if truthyString d then nl ++ nl ++ d else []
                   | None => []
                   end)
       end |}.

(** The [Suggestions] section of the list: up to three suggestion items,
    then the two fixed items, by the title of the first and the URLs both
    open. *)
Record SuggestionsSection := {
  suggestionsSubtitle : jsstring;
  suggestionItems : list SuggestionItemView;
  browserItemTitle : jsstring;
  browserItemUrl : jsstring;
  referenceItemUrl : jsstring
}.

(** What [SearchCommand] renders from the search text and the state of the
    session. *)
Record CommandView := {
  listIsLoading : bool;
  searchBarPlaceholder : jsstring;
  hasPatternDropdown : bool;
  suggestionsSection : option SuggestionsSection;
  resultsSubtitle : jsstring;
  resultItems : list ItemView
}.

Definition SearchCommand `{SourcegraphLib} (src : Sourcegraph) (searchText : jsstring)
  (st : SearchState) : CommandView :=
  let srcName := instanceName src in
  {| listIsLoading := isLoading st;
     searchBarPlaceholder :=
       lit "Search " ++ srcName ++ lit " (e.g. 'fmt.Sprintf lang:go')";
     hasPatternDropdown := searchPatternDropdown src;
     suggestionsSection :=
       if negb (isLoading st) && Nat.eqb (List.length (results st)) 0
       then Some {| suggestionsSubtitle := orEmpty (summary st);
                    suggestionItems :=
                      map (SuggestionItem searchText) (firstn 3 (suggestions st));
                    browserItemTitle :=
                      (if Nat.ltb 0 (List.length searchText)
                       then lit "Continue" else lit "Compose")
                        ++ lit " query in browser";
                    browserItemUrl := getQueryURL src searchText;
                    referenceItemUrl :=
                      newURL src (lit "/help/code_search/reference/queries") None |}
       else None;
     resultsSubtitle := orEmpty (summary st);
     resultItems := map SearchResultItem (results st) |}.

End Command.

(* ================================================================== *)
(** ** Notions the properties are stated with *)
(* ================================================================== *)

Module Notions.
Import Query Detail Session Dispatch.

(** Reading an escaped text back: a backslash quotes the code unit that
    follows it. *)
Fixpoint unescape (s : jsstring) : jsstring :=
  match s with
  | [] => []
  | c :: rest =>
      if N.eqb c backslash then
        match rest with
        | [] => []
        | d :: rest' => d :: unescape rest'
        end
      else c :: unescape rest
  end.

(** A text in which every metacharacter is quoted: it is made of code
    units that are no metacharacters and of pairs of a backslash and a
    metacharacter. *)
Fixpoint quoted (s : jsstring) : bool :=
  match s with
  | [] => true
  | c :: rest =>
      if N.eqb c backslash then
        match rest with
        | [] => false
        | d :: rest' => classMatches metacharacters d && quoted rest'
        end
      else negb (classMatches metacharacters c) && quoted rest
  end.

(** The name of the line anchor. *)
Definition anchorName (line : Z) : jsstring := lit "L" ++ numberToString line.

(** The pairs whose name is not [key]. *)
Definition others (key : jsstring) (params : list (jsstring * jsstring))
  : list (jsstring * jsstring) :=
  filter (fun q => negb (hasName key q)) params.

(** [p] does not come after [q] in the order of the names. *)
Definition nameLe (p q : jsstring * jsstring) : Prop :=
  JS.ltb (fst q) (fst p) = false.

(** The events of a trace. *)
Definition isCallSearch (e : Event) : bool :=
  match e with
  | CallSearch _ _ => true
  | _ => false
  end.

Definition isDeliver (e : Event) : bool :=
  match e with
  | Deliver _ _ => true
  | _ => false
  end.

(** What follows the last [search()] call of a trace; the whole trace when
    there is no call. *)
Fixpoint sinceLastSearch (trace : list Event) : list Event :=
  match trace with
  | [] => []
  | e :: rest =>
      if existsb isCallSearch rest then sinceLastSearch rest
      else if isCallSearch e then rest
      else e :: rest
  end.

Definition resultBatch (e : Event) : list SearchResult :=
  match e with
  | Deliver _ (onResults batch) => batch
  | _ => []
  end.

(** The suggestion batches pushed to the top, and those appended. *)
Definition topBatch (e : Event) : list (list Suggestion) :=
  match e with
  | Deliver _ (onSuggestions batch true) => [batch]
  | _ => []
  end.

Definition bottomBatch (e : Event) : list Suggestion :=
  match e with
  | Deliver _ (onSuggestions batch false) => batch
  | _ => []
  end.

(** The last progress report among the events, if any. *)
Fixpoint lastProgress (events : list Event) : option Progress :=
  match events with
  | [] => None
  | e :: rest =>
      match lastProgress rest with
      | Some p => Some p
      | None =>
          match e with
          | Deliver _ (onProgress p) => Some p
          | _ => None
          end
      end
  end.

Definition summaryText (p : Progress) : jsstring :=
  numberToString (matchCount p) ++ lit " results in " ++ duration p.

(** The toast an event shows, if it shows one. *)
Definition toastOf (e : Event) : list Toast :=
  match e with
  | Deliver _ (onAlert alert) =>
      [{| toastNavigationTitle := lit "Alert";
          toastTitle := alertTitle alert;
          toastDescription := orEmpty (alertDescription alert) |}]
  | Settle _ (Rejected error) =>
      [{| toastNavigationTitle := lit "Unexpected error";
          toastTitle := lit "Search failed";
          toastDescription := error |}]
  | _ => []
  end.

(** The [search()] calls of a trace, in order. *)
Definition searchCall (e : Event) : list (jsstring * PatternType) :=
  match e with
  | CallSearch searchText pattern => [(searchText, pattern)]
  | _ => []
  end.

End Notions.

(* ================================================================== *)
(** * Properties *)
(* ================================================================== *)

Import Query Detail Session Dispatch Samples.

Ltac assoc := repeat rewrite <- app_assoc; simpl.

(* ------------------------------------------------------------------ *)
(** ** The escaper *)
(* ------------------------------------------------------------------ *)

Section Escaper.

Lemma replaceClassGlobal_app class pattern s t :
  replaceClassGlobal class pattern (s ++ t)
  = replaceClassGlobal class pattern s ++ replaceClassGlobal class pattern t.
Proof.
  induction s as [|c s IH]; simpl; [reflexivity|].
  now rewrite IH, app_assoc.
Qed.

Lemma classMatches_In class c : classMatches class c = true <-> In c class.
Proof.
  unfold classMatches. rewrite existsb_exists. split.
  - intros [x [Hin Heq]]. apply N.eqb_eq in Heq. now subst.
  - intros Hin. exists c. split; [assumption | apply N.eqb_refl].
Qed.

(** The character class of the source has the members the specification
    lists. *)
Lemma regexpRe_metacharacters : regexpRe = metacharacters.
Proof. reflexivity. Qed.

Lemma escapeRegexp_cons c s :
  escapeRegexp (c :: s)
  = (if classMatches regexpRe c then [backslash; c] else [c]) ++ escapeRegexp s.
Proof. reflexivity. Qed.

(** C8.  [escapeRegexp] puts a backslash before every occurrence of a
    metacharacter [- \ ^ $ * + ? . ( ) | [ ] { }] and copies every other
    code unit: it maps a metacharacter alone to backslash and itself, any
    other code unit alone to itself, and a concatenation to the
    concatenation of the images.  The path separator is no metacharacter,
    and ["a.b*c"] becomes ["a\.b\*c"]. *)
Theorem escapeRegexp_metacharacters :
  (forall c, In c metacharacters -> escapeRegexp [c] = [backslash; c])
  /\ (forall c, ~ In c metacharacters -> escapeRegexp [c] = [c])
  /\ (forall s t, escapeRegexp (s ++ t) = escapeRegexp s ++ escapeRegexp t)
  /\ ~ In (N_of_ascii "/") metacharacters
  /\ escapeRegexp (lit "a.b*c") = lit "a\.b\*c".
Proof.
  repeat split.
  - intros c Hc. rewrite escapeRegexp_cons.
    rewrite <- regexpRe_metacharacters in Hc.
    apply classMatches_In in Hc. now rewrite Hc.
  - intros c Hc. rewrite escapeRegexp_cons.
    destruct (classMatches regexpRe c) eqn:E; [|reflexivity].
    apply classMatches_In in E. rewrite regexpRe_metacharacters in E. contradiction.
  - intros s t. apply replaceClassGlobal_app.
  - vm_compute. intuition discriminate.
Qed.

Lemma escapeRegexp_metacharacters_witness :
  In (N_of_ascii ".") metacharacters
  /\ escapeRegexp (lit ".") = lit "\."
  /\ escapeRegexp (lit "/") = lit "/".
Proof.
  destruct escapeRegexp_metacharacters as [Hmeta [Hother [_ [Hslash _]]]].
  assert (Hdot : In (N_of_ascii ".") metacharacters)
    by (do 7 right; left; reflexivity).
  split; [exact Hdot|].
  split; [exact (Hmeta _ Hdot) | exact (Hother _ Hslash)].
Defined.

End Escaper.

(* ------------------------------------------------------------------ *)
(** ** The drill-down builder *)
(* ------------------------------------------------------------------ *)

Section Drilldown.

Lemma nonEmpty_Some o r : nonEmpty o = Some r -> o = Some r /\ r <> [].
Proof.
  destruct o as [[|c s]|]; simpl; intros Heq; try discriminate.
  injection Heq as <-. split; [reflexivity | discriminate].
Qed.

(** The source builds what the specification describes once the empty
    strings among the options are read as absent. *)
Lemma buildDrilldownClauses_normal opts :
  buildDrilldownClauses opts = buildDrilldownClauses_spec (nonEmptyOpts opts).
Proof.
  destruct opts as [[[|c r]|] [[|d v]|] [[|e f]|]];
    unfold buildDrilldownClauses, buildDrilldownClauses_spec, drilldownClauses;
    cbn [repo revision file nonEmptyOpts nonEmpty truthyString app join];
    assoc; reflexivity.
Qed.

(** C7, as amended.  For every [opts]: if [repo] is present and not empty
    the output holds the clause [r:^] + escaped repo + [$], with [@] +
    revision appended verbatim when the revision is present and not empty;
    if [file] is present and not empty it holds the clause [f:] + escaped
    file; the clauses are joined by exactly one space, repo first.  An
    option that is the empty string yields no clause. *)
Theorem buildDrilldownClauses_truthy_fields : forall opts,
  buildDrilldownClauses opts = buildDrilldownClauses_spec (nonEmptyOpts opts)
  /\ (forall r, nonEmpty (repo opts) = Some r ->
        let repoClause :=
          lit "r:^" ++ escapeRegexp r ++ lit "$"
            ++ match nonEmpty (revision opts) with
               | Some v => lit "@" ++ v
               | None => []
               end in
        buildDrilldownClauses opts
        = match nonEmpty (file opts) with
          | Some f => repoClause ++ lit " " ++ lit "f:" ++ escapeRegexp f
          | None => repoClause
          end)
  /\ (nonEmpty (repo opts) = None ->
        buildDrilldownClauses opts
        = match nonEmpty (file opts) with
          | Some f => lit "f:" ++ escapeRegexp f
          | None => []
          end).
Proof.
  intros opts. split; [apply buildDrilldownClauses_normal|].
  rewrite buildDrilldownClauses_normal. unfold buildDrilldownClauses_spec.
  cbn [repo revision file nonEmptyOpts].
  split.
  - intros r Hr. rewrite Hr.
    destruct (nonEmpty (file opts)); cbn [app join]; assoc; reflexivity.
  - intros Hr. rewrite Hr.
    destruct (nonEmpty (file opts)); reflexivity.
Qed.

Lemma buildDrilldownClauses_truthy_fields_witness :
  nonEmpty (repo repoRevisionFile) = Some (lit "github.com/a/b")
  /\ buildDrilldownClauses repoRevisionFile
     = lit "r:^github\.com/a/b$@v1 f:cmd/main\.go".
Proof.
  split; [reflexivity|].
  destruct (buildDrilldownClauses_truthy_fields repoRevisionFile) as [_ [Hrepo _]].
  rewrite (Hrepo (lit "github.com/a/b") eq_refl). reflexivity.
Defined.

(** C7 as stated fails on a repo that is present and empty: the
    specification's wording yields the clause [r:^$], the source yields no
    clause. *)
Lemma buildDrilldownClauses_empty_repo :
  repo emptyRepo = Some []
  /\ buildDrilldownClauses emptyRepo = []
  /\ buildDrilldownClauses_spec emptyRepo = lit "r:^$"
  /\ ~ (buildDrilldownClauses emptyRepo = buildDrilldownClauses_spec emptyRepo).
Proof. repeat split. vm_compute. discriminate. Qed.

(** The examples of the specification. *)
Example buildDrilldownClauses_examples :
  buildDrilldownClauses
    {| repo := Some (lit "github.com/a/b"); revision := None; file := None |}
  = lit "r:^github\.com/a/b$"
  /\ buildDrilldownClauses
       {| repo := Some (lit "github.com/a/b"); revision := Some (lit "v1");
          file := None |}
     = lit "r:^github\.com/a/b$@v1"
  /\ onActionSearchText
       (makeDrilldownAction (lit "Search Repository")
          {| repo := Some (lit "github.com/a/b"); revision := None; file := None |})
     = lit "r:^github\.com/a/b$ ".
Proof. repeat split. Qed.

End Drilldown.

(* ------------------------------------------------------------------ *)
(** ** The list item of a search result *)
(* ------------------------------------------------------------------ *)

Section ListItem.

Lemma trimStart_split s :
  exists pre, s = pre ++ trimStart s
              /\ forallb isWhiteSpace pre = true
              /\ startsClean (trimStart s).
Proof.
  induction s as [|c s [pre [Hs [Hpre Hclean]]]].
  - exists []. repeat split.
  - cbn [trimStart]. destruct (isWhiteSpace c) eqn:Ec.
    + exists (c :: pre). cbn [app forallb]. rewrite Ec, Hpre. repeat split; [|assumption].
      now rewrite <- Hs.
    + exists []. repeat split. exact Ec.
Qed.

(** [trim] removes a run of white space at each end and nothing else: the
    string is white space, the trimmed string, white space, and the
    trimmed string neither starts nor ends with white space. *)
Lemma trim_split s :
  exists pre post,
    s = pre ++ trim s ++ post
    /\ forallb isWhiteSpace pre = true
    /\ forallb isWhiteSpace post = true
    /\ startsClean (trim s)
    /\ startsClean (rev (trim s)).
Proof.
  destruct (trimStart_split s) as [pre [Hs [Hpre Hclean]]].
  destruct (trimStart_split (rev (trimStart s))) as [post [Ht [Hpost Hclean']]].
  exists pre, (rev post). unfold trim, trimEnd.
  assert (Hmid : trimStart s = rev (trimStart (rev (trimStart s))) ++ rev post).
  { rewrite <- rev_app_distr, <- Ht. symmetry. apply rev_involutive. }
  repeat split.
  - now rewrite <- Hmid.
  - assumption.
  - rewrite forallb_forall in *. intros c Hc. apply Hpost. now apply in_rev.
  - rewrite Hmid in Hclean.
    destruct (rev (trimStart (rev (trimStart s)))) as [|c u]; [exact I | exact Hclean].
  - now rewrite rev_involutive.
Qed.

Lemma orEmpty_eq o : orEmpty o = match o with Some d => d | None => [] end.
Proof. destruct o as [[|c s]|]; reflexivity. Qed.

(** C3, as amended.  [SearchResultItem] handles each of the five match
    variants in a case of its own, with no default case.  Repo: the title
    is the repository name, the subtitle the description or empty, the
    accessory text the star count when it is present and not zero and empty
    otherwise, and the icon of an archived repository wins over that of a
    fork.  Commit: the title is the message, the subtitle the author date
    as given.  Path: the title is the path, the subtitle is empty.
    Content: the title is the trimmed lines joined by [" ... "], the
    subtitle the path.  Symbol: the title is the symbol names joined by
    [", "], the subtitle the path. *)
Theorem SearchResultItem_summary : forall searchResult : SearchResult,
  let m := match_ searchResult in
  let item := SearchResultItem searchResult in
  match body m with
  | MRepo description fork archived private _ =>
      title item = repository m
      /\ subtitle item = match description with Some d => d | None => [] end
      /\ text (accessory item)
         = match repoStars m with
           | Some stars => if (stars =? 0)%Z then [] else numberToString stars
           | None => []
           end
      /\ source (icon item)
         = (if archived then XmarkCircle else if fork then Circle else Dot)
  | MCommit message _ authorDate _ =>
      title item = message /\ subtitle item = authorDate
  | MPath path _ =>
      title item = path /\ subtitle item = []
  | MContent path lineMatches =>
      title item = join (lit " ... ") (map (fun l => trim (line l)) lineMatches)
      /\ subtitle item = path
  | MSymbol path symbols =>
      title item = join (lit ", ") (map name symbols)
      /\ subtitle item = path
  end.
Proof.
  intros [u [r stars b]]. cbv zeta. cbn [match_ body].
  destruct b as [d f a p br | msg an ad oid | p c | p lm | p sy];
    unfold SearchResultItem;
    cbn [match_ body repository repoStars title subtitle accessory icon text].
  - repeat split.
    + apply orEmpty_eq.
    + destruct stars as [n|]; [|reflexivity].
      unfold truthyNumber. destruct (n =? 0)%Z; reflexivity.
    + destruct f, a, p; reflexivity.
  - split; reflexivity.
  - split; reflexivity.
  - split; reflexivity.
  - split; reflexivity.
Qed.

(** C3 as stated fails on a repository whose star count is present and
    zero: the accessory text is empty, not the count, and no accessory is
    shown. *)
Lemma SearchResultItem_zero_stars :
  repoStars (match_ zeroStars) = Some 0%Z
  /\ text (accessory (SearchResultItem zeroStars)) = []
  /\ accessories (SearchResultItem zeroStars) = []
  /\ starAccessoryText_spec (match_ zeroStars) = lit "0"
  /\ ~ (text (accessory (SearchResultItem zeroStars))
        = starAccessoryText_spec (match_ zeroStars)).
Proof. repeat split. vm_compute. discriminate. Qed.

(** A repository with stars shows them beside a star; an archived fork
    shows the icon of an archived repository. *)
Example SearchResultItem_archived_fork :
  accessories (SearchResultItem archivedFork)
  = [{| text := lit "42"; accessoryIcon := Some Star |}]
  /\ source (icon (SearchResultItem archivedFork)) = XmarkCircle.
Proof. split; reflexivity. Qed.

Example trim_example :
  trim (lit "   return nil  ") = lit "return nil".
Proof. reflexivity. Qed.

End ListItem.

(* ------------------------------------------------------------------ *)
(** ** The detail views *)
(* ------------------------------------------------------------------ *)

Section Strings.

Lemma startsWith_iff s prefix :
  startsWith s prefix = true <-> exists rest, s = prefix ++ rest.
Proof.
  revert s. induction prefix as [|p prefix IH]; intros s.
  - split; [intros _; now exists s | intros _; destruct s; reflexivity].
  - destruct s as [|c s]; cbn [startsWith app].
    + split; [discriminate | intros [rest Heq]; discriminate].
    + rewrite andb_true_iff, N.eqb_eq, IH. split.
      * intros [-> [rest ->]]. now exists rest.
      * intros [rest Heq]. injection Heq as -> ->.
        split; [reflexivity | now exists rest].
Qed.

Lemma endsWith_iff s suffix :
  endsWith s suffix = true <-> exists stem, s = stem ++ suffix.
Proof.
  unfold endsWith. rewrite startsWith_iff. split.
  - intros [rest Heq]. exists (rev rest).
    apply (f_equal (@rev _)) in Heq.
    rewrite rev_involutive, rev_app_distr, rev_involutive in Heq.
    exact Heq.
  - intros [stem ->]. exists (rev stem). apply rev_app_distr.
Qed.

Lemma greaterThan_50 n : greaterThan (div1024 n) 50 = true <-> (51200 < n)%Z.
Proof. unfold greaterThan, div1024; cbn [numerator]. rewrite Z.ltb_lt. lia. Qed.

(** A whole number of kilobytes prints as that number. *)
Lemma over1024ToString_whole k :
  (0 <= k)%Z -> over1024ToString (div1024 (1024 * k)) = numberToString k.
Proof.
  intros Hk. unfold over1024ToString, div1024; cbn [numerator].
  assert (Hn : (1024 * k <? 0)%Z = false) by (apply Z.ltb_ge; lia).
  rewrite Hn, Z.abs_eq by lia.
  replace (1024 * k)%Z with (k * 1024)%Z by lia.
  rewrite Z.div_mul, Z.mod_mul by lia.
  cbn [Z.eqb app]. apply app_nil_r.
Qed.

Example over1024ToString_fraction :
  over1024ToString (div1024 51201) = lit "50.0009765625"
  /\ over1024ToString (div1024 61952) = lit "60.5".
Proof. split; reflexivity. Qed.

End Strings.

Section CodeUnitOrder.

Lemma eqb_eq s t : JS.eqb s t = true <-> s = t.
Proof.
  revert t. induction s as [|c s IH]; intros [|d t]; cbn [JS.eqb];
    try (split; [discriminate | discriminate]); try tauto.
  rewrite andb_true_iff, N.eqb_eq, IH. split.
  - now intros [-> ->].
  - intros [= -> ->]. now split.
Qed.

Lemma ltb_irrefl s : JS.ltb s s = false.
Proof.
  induction s as [|c s IH]; [reflexivity|].
  cbn [JS.ltb]. now rewrite N.ltb_irrefl.
Qed.

Lemma ltb_asym s t : JS.ltb s t = true -> JS.ltb t s = false.
Proof.
  revert t. induction s as [|c s IH]; intros [|d t]; cbn [JS.ltb]; try easy.
  destruct (c <? d)%N eqn:Ecd, (d <? c)%N eqn:Edc; try easy.
  - apply N.ltb_lt in Ecd, Edc. lia.
  - apply IH.
Qed.

(** Two strings neither of which is below the other are equal. *)
Lemma ltb_antisym s t : JS.ltb s t = false -> JS.ltb t s = false -> s = t.
Proof.
  revert t. induction s as [|c s IH]; intros [|d t]; cbn [JS.ltb]; try easy.
  destruct (c <? d)%N eqn:Ecd, (d <? c)%N eqn:Edc; try easy.
  intros Hst Hts. apply N.ltb_ge in Ecd, Edc.
  assert (c = d) by lia. subst d. f_equal. now apply IH.
Qed.

(** A string below [p] is below every string that is not below [p]. *)
Lemma ltb_below x p q : JS.ltb x p = true -> JS.ltb q p = false -> JS.ltb x q = true.
Proof.
  revert p q. induction x as [|a x IH]; intros [|b p] [|c q]; cbn [JS.ltb]; try easy.
  destruct (a <? b)%N eqn:Eab, (b <? a)%N eqn:Eba,
           (c <? b)%N eqn:Ecb, (b <? c)%N eqn:Ebc,
           (a <? c)%N eqn:Eac, (c <? a)%N eqn:Eca; try easy;
    rewrite ?N.ltb_lt, ?N.ltb_ge in *; try lia.
  apply IH.
Qed.

End CodeUnitOrder.

Section Params.

Lemma insertParam_In p q sorted : In q (insertParam p sorted) <-> q = p \/ In q sorted.
Proof.
  induction sorted as [|r sorted IH]; cbn [insertParam].
  - cbn. intuition.
  - destruct (JS.ltb (fst r) (fst p)); cbn [In]; rewrite ?IH; intuition.
Qed.

Lemma paramsSort_In q params : In q (paramsSort params) <-> In q params.
Proof.
  induction params as [|p params IH]; [reflexivity|].
  cbn [paramsSort fold_right]. fold (paramsSort params).
  rewrite insertParam_In, IH. cbn. intuition.
Qed.

(** The first pair after sorting is a pair of the list, and no pair of the
    list has a smaller name. *)
Lemma paramsSort_head params h rest :
  paramsSort params = h :: rest ->
  In h params /\ forall p, In p params -> JS.ltb (fst p) (fst h) = false.
Proof.
  revert h rest. induction params as [|p params IH]; intros h rest; [discriminate|].
  cbn [paramsSort fold_right]. fold (paramsSort params).
  destruct (paramsSort params) as [|q sorted] eqn:Esorted.
  - cbn. intros [= <- <-].
    assert (params = []) as ->.
    { destruct params as [|x params]; [reflexivity|].
      assert (Hin : In x (paramsSort (x :: params))) by (apply paramsSort_In; now left).
      rewrite Esorted in Hin. contradiction. }
    split; [now left|]. intros x [<- | []]. apply ltb_irrefl.
  - destruct (IH q sorted eq_refl) as [Hq Hmin].
    cbn [insertParam]. destruct (JS.ltb (fst q) (fst p)) eqn:Eqp.
    + intros [= <- <-]. split; [now right|].
      intros x [<- | Hx]; [now apply ltb_asym | now apply Hmin].
    + intros [= <- <-]. split; [now left|].
      intros x [<- | Hx]; [apply ltb_irrefl|].
      destruct (JS.ltb (fst x) (fst p)) eqn:Exp; [|reflexivity].
      pose proof (ltb_below _ _ _ Exp Eqp) as Hxq.
      rewrite (Hmin x Hx) in Hxq. discriminate.
Qed.

Lemma hasName_true key p : hasName key p = true <-> fst p = key.
Proof. unfold hasName. apply eqb_eq. Qed.

Lemma setFirst_In key value params q :
  existsb (hasName key) params = true ->
  (In q (setFirst key value params)
   <-> q = (key, value) \/ (In q params /\ fst q <> key)).
Proof.
  induction params as [|p params IH]; [discriminate|].
  cbn [existsb setFirst]. destruct (hasName key p) eqn:Ep.
  - intros _. cbn [In]. rewrite filter_In.
    apply hasName_true in Ep. split.
    + intros [<- | [Hin Hne]]; [now left|]. right. split; [now right|].
      intros Heq. apply hasName_true in Heq. now rewrite Heq in Hne.
    + intros [-> | [[<- | Hin] Hne]]; [now left | contradiction |].
      right. split; [assumption|].
      destruct (hasName key q) eqn:Eq; [|reflexivity].
      apply hasName_true in Eq. contradiction.
  - cbn [orb]. intros Hex. cbn [In]. rewrite (IH Hex).
    assert (Hp : fst p <> key).
    { intros Heq. apply hasName_true in Heq. congruence. }
    split.
    + intros [<- | [-> | [Hin Hne]]]; [right; split; [now left | assumption]
                                      | now left | right; split; [now right | assumption]].
    + intros [-> | [[<- | Hin] Hne]]; [right; now left | now left | right; right; now split].
Qed.

Lemma paramsSet_In key value params q :
  In q (paramsSet key value params)
  <-> q = (key, value) \/ (In q params /\ fst q <> key).
Proof.
  unfold paramsSet. destruct (existsb (hasName key) params) eqn:Eex.
  - now apply setFirst_In.
  - rewrite in_app_iff. cbn [In]. split.
    + intros [Hin | [<- | []]]; [|now left]. right. split; [assumption|].
      intros Heq.
      assert (Hex : existsb (hasName key) params = true)
        by (apply existsb_exists; exists q; split; [assumption | now apply hasName_true]).
      congruence.
    + intros [-> | [Hin _]]; [right; now left | now left].
Qed.

(** The line anchor is the first parameter exactly when no parameter of the
    parent URL has a name below the anchor's. *)
Lemma anchor_first_iff parsed line :
  let anchor := lit "L" ++ numberToString line in
  firstParamName (withLineNumber parsed line) = Some anchor
  <-> forall p, In p (searchParams parsed) -> JS.ltb (fst p) anchor = false.
Proof.
  cbv zeta. set (anchor := lit "L" ++ numberToString line).
  unfold firstParamName, withLineNumber; cbn [searchParams]. fold anchor.
  set (params := paramsSet anchor [] (searchParams parsed)).
  assert (Hanchor : In (anchor, []) params) by (apply paramsSet_In; now left).
  destruct (paramsSort params) as [|h rest] eqn:Esorted.
  - apply paramsSort_In in Hanchor. rewrite Esorted in Hanchor. contradiction.
  - destruct (paramsSort_head _ _ _ Esorted) as [Hh Hmin]. split.
    + intros [= Hname] p Hp.
      destruct (list_eq_dec N.eq_dec (fst p) anchor) as [-> | Hne]; [apply ltb_irrefl|].
      rewrite <- Hname. apply Hmin. apply paramsSet_In. right. now split.
    + intros Hall. f_equal. apply ltb_antisym.
      * apply paramsSet_In in Hh. destruct Hh as [-> | [Hin _]]; [apply ltb_irrefl|].
        now apply Hall.
      * apply (Hmin _ Hanchor).
Qed.

End Params.

(** The decimals [over1024ToString] prints for a remainder of bytes are
    exactly that remainder over 1024, checked on each of the 1024
    remainders. *)
Lemma fractionDigits_exact r :
  (0 <= r < 1024)%Z -> denotesFraction (fractionDigits 10 r) r = true.
Proof.
  intros Hr.
  assert (Hall : forallb (fun n => denotesFraction (fractionDigits 10 (Z.of_nat n))
                                                   (Z.of_nat n))
                         (seq 0 1024) = true) by (vm_compute; reflexivity).
  rewrite forallb_forall in Hall.
  specialize (Hall (Z.to_nat r)). rewrite Z2Nat.id in Hall by lia.
  apply Hall. apply in_seq. lia.
Qed.

Lemma fractionDigits_nonempty fuel r :
  r <> 0%Z -> exists c digits, fractionDigits (S fuel) r = c :: digits.
Proof.
  intros Hr. cbn [fractionDigits].
  destruct (r =? 0)%Z eqn:E; [apply Z.eqb_eq in E; contradiction|].
  eexists; eexists; reflexivity.
Qed.

(** What [over1024ToString] prints for a size that is not negative is the
    measured size in KB. *)
Lemma over1024ToString_measured n :
  (0 <= n)%Z -> measuredKB (over1024ToString (div1024 n)) n.
Proof.
  intros Hn. unfold over1024ToString, div1024; cbn [numerator].
  assert (Hneg : (n <? 0)%Z = false) by (apply Z.ltb_ge; lia).
  rewrite Hneg, Z.abs_eq by lia. cbn [app].
  pose proof (Z.mod_pos_bound n 1024 ltac:(lia)) as Hr.
  exists (fractionDigits 10 (n mod 1024)). split; [now apply fractionDigits_exact|].
  destruct (n mod 1024 =? 0)%Z eqn:E.
  - apply Z.eqb_eq in E. rewrite E. reflexivity.
  - apply Z.eqb_neq in E.
    destruct (fractionDigits_nonempty 9 _ E) as [c [digits Hd]].
    now rewrite Hd.
Qed.

Section Blobs.
Context `{Markdown}.

(** C9.  [renderBlob]: an absent blob yields a fixed notice; binary content
    is never rendered and yields a fixed notice; content that is present,
    not binary and larger than 50KB yields the "too large" notice, which
    carries the measured size in KB: the whole kilobytes as an integer
    and, when bytes remain, a point and the decimals that are exactly the
    remainder over 1024 (for a byte size in the range of a GraphQL Int);
    otherwise a path ending in [.md] renders the content as it is and any
    other path wraps it in a code block; absent (empty) content yields a
    fixed notice.  For a file of a whole number [k] of kilobytes the
    notice reads "File too large to render (kKB)", so "(60KB)" for 60KB. *)
Theorem renderBlob_policy :
  renderBlob None = quoteBlock (lit "Blob not found")
  /\ (forall b, binary b = true ->
        renderBlob (Some b)
        = quoteBlock (lit "File preview is not yet supported for binary files."))
  /\ (forall b, binary b = false -> content b <> [] ->
        (50 * 1024 < byteSize b <= maxInt)%Z ->
        exists size,
          renderBlob (Some b)
          = quoteBlock (lit "File too large to render (" ++ size ++ lit "KB)")
          /\ measuredKB size (byteSize b))
  /\ (forall b k, binary b = false -> content b <> [] ->
        (50 < k)%Z -> byteSize b = (1024 * k)%Z -> (byteSize b <= maxInt)%Z ->
        renderBlob (Some b)
        = quoteBlock (lit "File too large to render (" ++ numberToString k ++ lit "KB)"))
  /\ (forall b, binary b = false -> content b <> [] -> (byteSize b <= 50 * 1024)%Z ->
        (exists stem, path b = stem ++ lit ".md") ->
        renderBlob (Some b) = content b)
  /\ (forall b, binary b = false -> content b <> [] -> (byteSize b <= 50 * 1024)%Z ->
        ~ (exists stem, path b = stem ++ lit ".md") ->
        renderBlob (Some b) = codeBlock (content b))
  /\ (forall b, binary b = false -> content b = [] ->
        renderBlob (Some b) = quoteBlock (lit "No content found"))
  /\ (forall b, binary b = false -> content b <> [] -> byteSize b = (60 * 1024)%Z ->
        renderBlob (Some b) = quoteBlock (lit "File too large to render (60KB)")
        /\ includes (lit "File too large to render (60KB)") (lit "60") = true).
Proof.
  assert (Htruthy : forall s : jsstring, s <> [] -> truthyString s = true)
    by (intros [|c s] Hs; [contradiction | reflexivity]).
  assert (Hbig : forall n, (50 * 1024 < n)%Z -> greaterThan (div1024 n) 50 = true)
    by (intros n Hn; apply greaterThan_50; lia).
  assert (Hsmall : forall n, (n <= 50 * 1024)%Z -> greaterThan (div1024 n) 50 = false).
  { intros n Hn. destruct (greaterThan (div1024 n) 50) eqn:E; [|reflexivity].
    apply greaterThan_50 in E. lia. }
  split; [reflexivity|].
  split; [intros b Hb; unfold renderBlob; now rewrite Hb|].
  split.
  { intros b Hb Hc [Hn _]. exists (over1024ToString (div1024 (byteSize b))). split.
    - unfold renderBlob. now rewrite Hb, (Htruthy _ Hc), (Hbig _ Hn).
    - apply over1024ToString_measured. lia. }
  split.
  { intros b k Hb Hc Hk Hsize _. unfold renderBlob.
    rewrite Hb, (Htruthy _ Hc), (Hbig (byteSize b)) by lia.
    rewrite Hsize, over1024ToString_whole by lia. reflexivity. }
  split.
  { intros b Hb Hc Hn Hmd. unfold renderBlob.
    rewrite Hb, (Htruthy _ Hc), (Hsmall _ Hn).
    apply endsWith_iff in Hmd. now rewrite Hmd. }
  split.
  { intros b Hb Hc Hn Hmd. unfold renderBlob.
    rewrite Hb, (Htruthy _ Hc), (Hsmall _ Hn).
    destruct (endsWith (path b) (lit ".md")) eqn:E; [|reflexivity].
    apply endsWith_iff in E. contradiction. }
  split.
  { intros b Hb Hc. unfold renderBlob. now rewrite Hb, Hc. }
  intros b Hb Hc Hn. split; [|reflexivity].
  unfold renderBlob. rewrite Hb, (Htruthy _ Hc), Hn. reflexivity.
Qed.

End Blobs.

Lemma renderBlob_policy_witness :
  @renderBlob plainMarkdown (Some binaryFile)
  = lit "> File preview is not yet supported for binary files."
  /\ @renderBlob plainMarkdown (Some sixtyKB) = lit "> File too large to render (60KB)"
  /\ (exists size,
        @renderBlob plainMarkdown (Some sixtyKB)
        = lit "> File too large to render (" ++ size ++ lit "KB)"
        /\ measuredKB size 61440%Z)
  /\ @renderBlob plainMarkdown (Some smallReadme) = lit "# b"
  /\ @renderBlob plainMarkdown (Some smallGo)
     = lit "```" ++ nl ++ lit "package main" ++ nl ++ lit "```"
  /\ @renderBlob plainMarkdown (Some emptyFile) = lit "> No content found".
Proof.
  destruct (@renderBlob_policy plainMarkdown)
    as [_ [Hbin [Hbig [Hwhole [Hmd [Hcode [Hnone _]]]]]]].
  split; [apply (Hbin binaryFile); reflexivity|].
  split; [apply (Hwhole sixtyKB 60%Z);
          [reflexivity | discriminate | reflexivity | reflexivity | discriminate]|].
  split; [apply (Hbig sixtyKB);
          [reflexivity | discriminate | split; [reflexivity | discriminate]]|].
  split; [apply (Hmd smallReadme);
          [reflexivity | discriminate | discriminate
          | exists (lit "README"); reflexivity]|].
  split; [|apply (Hnone emptyFile); reflexivity].
  apply (Hcode smallGo); [reflexivity | discriminate | discriminate |].
  intros Hmd'. apply endsWith_iff in Hmd'. discriminate.
Defined.

Section Views.
Context `{UrlPlatform} `{Markdown}.

(** C4, on an input where it fails.  The parent URL already has a query
    parameter named [A]: after the line anchor [L5] is set and the
    parameters are sorted, [A] is first and the anchor second.  With the
    UTM parameter the source's comment speaks of, the anchor is first. *)
Theorem withLineNumber_anchor_not_first :
  searchParams (withLineNumber blobUrlWithParam 5)
  = [(lit "A", lit "1"); (lit "L5", [])]
  /\ firstParamName (withLineNumber blobUrlWithParam 5) = Some (lit "A")
  /\ firstParamName (withLineNumber blobUrlWithUtm 5) = Some (lit "L5").
Proof. repeat split. Qed.

(** The sub-items of a symbol match open the symbols' own URLs. *)
Lemma MultiResultView_symbol_urls url r stars p symbols :
  map itemUrl (MultiResultView url {| repository := r; repoStars := stars;
                                      body := MSymbol p symbols |})
  = map Dispatch.url symbols.
Proof.
  unfold MultiResultView; cbn [body]. rewrite map_map. reflexivity.
Qed.

(** The sub-items of a content match open the parent URL with the line
    anchor set and the parameters sorted. *)
Lemma MultiResultView_content_urls url r stars p lineMatches :
  map itemUrl (MultiResultView url {| repository := r; repoStars := stars;
                                      body := MContent p lineMatches |})
  = map (fun l => serializeURL (withLineNumber (parseURL url) (lineNumber l)))
        lineMatches.
Proof.
  unfold MultiResultView; cbn [body]. rewrite map_map. reflexivity.
Qed.

(** C6, on the input where it fails.  When the README query of a
    repository result has failed, the markdown is the title and the
    description alone: the error is not rendered. *)
Theorem ResultView_repo_fetch_error_not_rendered :
  forall url r stars d f a p br e,
    markdownOf (ResultView
                  {| resultUrl := url;
                     match_ := {| repository := r; repoStars := stars;
                                  body := MRepo d f a p br |} |}
                  {| called := true; data := None; error := Some e |})
    = bold r ++ nl ++ nl ++ orEmpty d.
Proof. reflexivity. Qed.

(** The path view, in the same situation, renders the error inline. *)
Lemma ResultView_path_fetch_error_rendered :
  forall url r stars path c e,
    markdownOf (ResultView
                  {| resultUrl := url;
                     match_ := {| repository := r; repoStars := stars;
                                  body := MPath path c |} |}
                  {| called := true; data := None; error := Some e |})
    = bold r ++ nl ++ nl ++ codeBlock path ++ nl ++ nl ++ lit "---" ++ nl ++ nl
        ++ quoteBlock (lit "Failed to fetch file: " ++ e).
Proof.
  intros. unfold ResultView, markdownOf; cbn [match_ body called data error negb view].
  repeat rewrite <- app_assoc. reflexivity.
Qed.

End Views.

(* ------------------------------------------------------------------ *)
(** ** The search session *)
(* ------------------------------------------------------------------ *)

Section Folds.

(** C10.  Every fold writes its own field of the state and leaves the
    others as they were: [onResults] writes [results] only,
    [onSuggestions] [suggestions] only, [onProgress] [summary] only, the
    completion and the failure of the stream [isLoading] only, and
    [onAlert] writes no field of the state. *)
Theorem fold_frame : forall (s : Session) (g : nat),
  (forall batch,
     let s' := step s (Deliver g (onResults batch)) in
     suggestions (state s') = suggestions (state s)
     /\ summary (state s') = summary (state s)
     /\ isLoading (state s') = isLoading (state s))
  /\ (forall batch pushToTop,
        let s' := step s (Deliver g (onSuggestions batch pushToTop)) in
        results (state s') = results (state s)
        /\ summary (state s') = summary (state s)
        /\ isLoading (state s') = isLoading (state s))
  /\ (forall progress,
        let s' := step s (Deliver g (onProgress progress)) in
        results (state s') = results (state s)
        /\ suggestions (state s') = suggestions (state s)
        /\ isLoading (state s') = isLoading (state s))
  /\ (forall o,
        let s' := step s (Settle g o) in
        results (state s') = results (state s)
        /\ suggestions (state s') = suggestions (state s)
        /\ summary (state s') = summary (state s))
  /\ (forall alert, state (step s (Deliver g (onAlert alert))) = state s).
Proof.
  intros s g. repeat split; try reflexivity; destruct o; reflexivity.
Qed.

(** [onResults] appends the batch in arrival order, duplicates included. *)
Lemma onResults_appends s g batch :
  results (state (step s (Deliver g (onResults batch))))
  = results (state s) ++ batch.
Proof. reflexivity. Qed.

(** A batch pushed to the top after a batch that was appended comes first. *)
Lemma onSuggestions_pushToTop s g batch batch2 :
  suggestions (state s) = [] ->
  suggestions (state (run s [Deliver g (onSuggestions batch2 false);
                             Deliver g (onSuggestions batch true)]))
  = batch ++ batch2.
Proof. intros Hs. cbn. now rewrite Hs. Qed.

(** C5.  When the stream fails, whatever the failure, [search] sets
    [isLoading] to false and shows an error toast whose description is the
    failure, and the results, suggestions and summary gathered so far stay
    as they are. *)
Theorem settle_rejected : forall (s : Session) (g : nat) (error : jsstring),
  let s' := step s (Settle g (Rejected error)) in
  isLoading (state s') = false
  /\ toasts s' = toasts s ++ [{| toastNavigationTitle := lit "Unexpected error";
                                 toastTitle := lit "Search failed";
                                 toastDescription := error |}]
  /\ results (state s') = results (state s)
  /\ suggestions (state s') = suggestions (state s)
  /\ summary (state s') = summary (state s).
Proof. intros s g error. repeat split. Qed.

(** C2, as amended.  The outcome of a superseded generation is handled like
    any other: when its stream completes, [isLoading] is set to false and
    nothing is shown; when it fails, [isLoading] is set to false and the
    error toast is shown.  Results, suggestions and summary are left as
    they are in both cases. *)
Theorem settle_superseded : forall (s : Session) (g : nat),
  In g (aborted s) ->
  (let s' := step s (Settle g Resolved) in
   isLoading (state s') = false
   /\ results (state s') = results (state s)
   /\ suggestions (state s') = suggestions (state s)
   /\ summary (state s') = summary (state s)
   /\ toasts s' = toasts s)
  /\ (forall error,
        let s' := step s (Settle g (Rejected error)) in
        isLoading (state s') = false
        /\ results (state s') = results (state s)
        /\ suggestions (state s') = suggestions (state s)
        /\ summary (state s') = summary (state s)
        /\ toasts s'
           = toasts s ++ [{| toastNavigationTitle := lit "Unexpected error";
                             toastTitle := lit "Search failed";
                             toastDescription := error |}]).
Proof. intros s g _. repeat split. Qed.

Lemma settle_superseded_witness :
  In 0 (aborted (run initial twoSearches))
  /\ isLoading (state (run initial twoSearches)) = true
  /\ isLoading (state (step (run initial twoSearches) (Settle 0 Resolved))) = false
  /\ toasts (step (run initial twoSearches) (Settle 0 (Rejected (lit "AbortError"))))
     = toasts (run initial twoSearches)
         ++ [{| toastNavigationTitle := lit "Unexpected error";
                toastTitle := lit "Search failed";
                toastDescription := lit "AbortError" |}].
Proof.
  assert (Hin : In 0 (aborted (run initial twoSearches))) by (left; reflexivity).
  split; [exact Hin|]. split; [reflexivity|].
  destruct (settle_superseded (run initial twoSearches) 0 Hin) as [[Hoff _] Hrej].
  split; [exact Hoff|].
  destruct (Hrej (lit "AbortError")) as [_ [_ [_ [_ Htoast]]]]. exact Htoast.
Defined.

(** C2 as stated fails after two [search()] calls: generation 0 is
    aborted, and when its promise settles the state changes ([isLoading]
    drops to false while generation 1 is still loading); when it rejects,
    the error toast is shown as well. *)
Lemma superseded_outcome_not_discarded :
  In 0 (aborted (run initial twoSearches))
  /\ isLoading (state (run initial twoSearches)) = true
  /\ isLoading (state (step (run initial twoSearches) (Settle 0 Resolved))) = false
  /\ toasts (run initial twoSearches) = []
  /\ toasts (step (run initial twoSearches) (Settle 0 (Rejected (lit "AbortError"))))
     = [{| toastNavigationTitle := lit "Unexpected error";
           toastTitle := lit "Search failed";
           toastDescription := lit "AbortError" |}]
  /\ ~ discardsSilently (run initial twoSearches) 0 Resolved
  /\ ~ discardsSilently (run initial twoSearches) 0 (Rejected (lit "AbortError")).
Proof.
  split; [left; reflexivity|].
  repeat split; intros [Hst Hto]; vm_compute in Hst, Hto; discriminate.
Qed.

End Folds.

Section Traces.

Lemma run_snoc s trace e : run s (trace ++ [e]) = step (run s trace) e.
Proof. unfold run. now rewrite fold_left_app. Qed.

Lemma run_guarded_snoc s trace e :
  run_guarded s (trace ++ [e]) = step_guarded (run_guarded s trace) e.
Proof. unfold run_guarded. now rewrite fold_left_app. Qed.

Lemma deliversWhileCurrent_snoc trace : forall s e,
  deliversWhileCurrent s (trace ++ [e])
  = deliversWhileCurrent s trace && deliverable (run s trace) e.
Proof.
  induction trace as [|e0 trace IH]; intros s e.
  - cbn. destruct e; cbn; now rewrite ?andb_true_r.
  - cbn [app deliversWhileCurrent]. rewrite IH. cbn [run fold_left].
    unfold run. now rewrite andb_assoc.
Qed.

Lemma isCurrent_true g s : isCurrent g s = true <-> cancelRef s = Some g.
Proof.
  unfold isCurrent. destruct (cancelRef s) as [c|].
  - rewrite Nat.eqb_eq. split; [now intros -> | now intros [= ->]].
  - split; discriminate.
Qed.

Lemma resultsOfGeneration_snoc g trace e :
  resultsOfGeneration g (trace ++ [e])
  = resultsOfGeneration g trace ++ resultsOfGeneration g [e].
Proof. unfold resultsOfGeneration. now rewrite flat_map_app. Qed.

(** While the transport stops on abort, the current generation is the last
    [search()] call, no later generation has delivered anything, and the
    results are those the current generation delivered. *)
Lemma current_generation_results trace :
  deliversWhileCurrent initial trace = true ->
  let s := run initial trace in
  (forall g, cancelRef s = Some g ->
             S g = List.length (performed s)
             /\ results (state s) = resultsOfGeneration g trace)
  /\ (forall g, List.length (performed s) <= g -> resultsOfGeneration g trace = []).
Proof.
  induction trace as [|e trace IH] using rev_ind; cbv zeta.
  - intros _. split; [discriminate | reflexivity].
  - rewrite deliversWhileCurrent_snoc, andb_true_iff. intros [Htrace He].
    specialize (IH Htrace). cbv zeta in IH. destruct IH as [IHcur IHlater].
    rewrite run_snoc. set (s := run initial trace) in *.
    destruct e as [searchText pattern | g cb | g o]; cbn [step].
    + (* a new search() call *)
      split.
      * intros g [= <-]. cbn [search performed state results].
        rewrite length_app, resultsOfGeneration_snoc, IHlater by lia.
        split; [cbn; lia | reflexivity].
      * intros g Hg. cbn [search performed] in Hg. rewrite length_app in Hg.
        cbn in Hg. rewrite resultsOfGeneration_snoc, IHlater by lia. reflexivity.
    + (* a callback of the current generation *)
      cbn [deliverable] in He. apply isCurrent_true in He.
      destruct (IHcur g He) as [Hlen Hres].
      assert (Hsame : cancelRef (fold cb s) = cancelRef s
                      /\ performed (fold cb s) = performed s)
        by (destruct cb; split; reflexivity).
      destruct Hsame as [Hc Hp]. rewrite Hc, Hp. split.
      * intros g' Hg'. rewrite He in Hg'. injection Hg' as <-.
        split; [exact Hlen|]. rewrite resultsOfGeneration_snoc.
        destruct cb; cbn [resultsOfGeneration flat_map fold setState show state results];
          rewrite ?Nat.eqb_refl, ?app_nil_r; try exact Hres.
        now rewrite Hres.
      * intros g' Hg'. rewrite resultsOfGeneration_snoc, IHlater by exact Hg'.
        destruct cb; cbn [resultsOfGeneration flat_map app]; try reflexivity.
        assert (Hne : Nat.eqb g g' = false) by (apply Nat.eqb_neq; lia).
        now rewrite Hne.
    + (* a promise settles *)
      assert (Hsame : cancelRef (settle o s) = cancelRef s
                      /\ performed (settle o s) = performed s
                      /\ results (state (settle o s)) = results (state s))
        by (destruct o; repeat split; reflexivity).
      destruct Hsame as [Hc [Hp Hr]]. rewrite Hc, Hp, Hr. split.
      * intros g' Hg'. destruct (IHcur g' Hg') as [Hlen Hres].
        split; [exact Hlen|]. rewrite resultsOfGeneration_snoc. cbn. now rewrite app_nil_r.
      * intros g' Hg'. rewrite resultsOfGeneration_snoc, IHlater by exact Hg'. reflexivity.
Qed.

Lemma agree_step s s' e :
  agree s s' -> deliverable s e = true -> agree (step s e) (step_guarded s' e).
Proof.
  intros [Hc [Hp Hf]] He. unfold folded in Hf. injection Hf as Hr Hsu Hsm.
  destruct e as [searchText pattern | g cb | g o]; cbn [step step_guarded].
  - unfold agree, search; cbn. now rewrite Hp.
  - cbn [deliverable] in He.
    assert (He' : isCurrent g s' = true) by (unfold isCurrent in *; now rewrite <- Hc).
    rewrite He'. unfold agree, folded.
    destruct cb; cbn; rewrite ?Hr, ?Hsu, ?Hsm; auto.
  - assert (Hkeep : forall x, cancelRef (settle o x) = cancelRef x
                              /\ performed (settle o x) = performed x
                              /\ folded (state (settle o x)) = folded (state x))
      by (intros x; destruct o; repeat split; reflexivity).
    destruct (Hkeep s) as [H1 [H2 H3]].
    unfold agree. rewrite H1, H2, H3.
    destruct (isCurrent g s').
    + destruct (Hkeep s') as [H1' [H2' H3']]. rewrite H1', H2', H3'.
      unfold folded. now rewrite Hr, Hsu, Hsm.
    + unfold folded. now rewrite Hr, Hsu, Hsm.
Qed.

Lemma agree_run trace :
  deliversWhileCurrent initial trace = true ->
  agree (run initial trace) (run_guarded initial trace).
Proof.
  induction trace as [|e trace IH] using rev_ind.
  - intros _. repeat split.
  - rewrite deliversWhileCurrent_snoc, andb_true_iff. intros [Htrace He].
    rewrite run_snoc, run_guarded_snoc. apply agree_step; auto.
Qed.

(** C1, as amended.  [search] aborts the previous controller and resets the
    state, and the callbacks fold whatever they are handed without looking
    at the generation.  When the transport invokes a generation's
    callbacks only while that generation is the current one, the final
    results are exactly the batches the most recent generation delivered,
    and results, suggestions and summary are those of the session that
    checks the generation before folding. *)
Theorem no_stale_results_when_transport_stops : forall trace,
  deliversWhileCurrent initial trace = true ->
  noStaleResults trace
  /\ folded (state (run initial trace)) = folded (state (run_guarded initial trace)).
Proof.
  intros trace Htrace. split.
  - intros g Hg. now apply (current_generation_results trace Htrace).
  - now apply agree_run.
Qed.

End Traces.


Lemma no_stale_results_witness :
  deliversWhileCurrent initial promptDelivery = true
  /\ results (state (run initial promptDelivery)) = [barResult].
Proof.
  assert (Hok : deliversWhileCurrent initial promptDelivery = true) by reflexivity.
  split; [exact Hok|].
  destruct (no_stale_results_when_transport_stops promptDelivery Hok) as [Hres _].
  rewrite (Hres 1 eq_refl). reflexivity.
Defined.

(** C1 as stated fails on the scenario of the specification when the first
    stream delivers late: generation 0 is aborted and generation 1 is
    current, yet the batch of generation 0 is folded and stays in the
    final results; the guarded session drops it. *)
Lemma stale_results_appear :
  cancelRef (run initial lateDelivery) = Some 1
  /\ In 0 (aborted (run initial lateDelivery))
  /\ results (state (run initial lateDelivery)) = [fooResult; barResult]
  /\ resultsOfGeneration 1 lateDelivery = [barResult]
  /\ results (state (run_guarded initial lateDelivery)) = [barResult]
  /\ ~ noStaleResults lateDelivery.
Proof.
  repeat split; try (left; reflexivity).
  intros Hclaim. specialize (Hclaim 1 eq_refl). vm_compute in Hclaim. discriminate.
Qed.

(* ================================================================== *)
(** * More properties of the code *)
(* ================================================================== *)

Import Command Notions.

(* ------------------------------------------------------------------ *)
(** ** The escaper, read back *)
(* ------------------------------------------------------------------ *)

Section EscaperLaws.

Lemma backslash_meta : classMatches regexpRe backslash = true.
Proof. reflexivity. Qed.

Lemma not_meta_not_backslash c :
  classMatches regexpRe c = false -> N.eqb c backslash = false.
Proof.
  intros Hc. destruct (N.eqb c backslash) eqn:E; [|reflexivity].
  apply N.eqb_eq in E. subst c. rewrite backslash_meta in Hc. discriminate.
Qed.

(** X1.  Escaping loses nothing: reading the escaped text back, each
    backslash quoting the code unit after it, gives the text again; so two
    different texts never escape to the same text. *)
Theorem escapeRegexp_round_trip :
  (forall s, unescape (escapeRegexp s) = s)
  /\ (forall s t, escapeRegexp s = escapeRegexp t -> s = t).
Proof.
  assert (Hback : forall s, unescape (escapeRegexp s) = s).
  { induction s as [|c s IH]; [reflexivity|].
    rewrite escapeRegexp_cons. destruct (classMatches regexpRe c) eqn:Ec.
    - cbn [app unescape]. rewrite N.eqb_refl. now rewrite IH.
    - cbn [app unescape]. rewrite (not_meta_not_backslash c Ec). now rewrite IH. }
  split; [exact Hback|].
  intros s t Heq. rewrite <- (Hback s), <- (Hback t). now rewrite Heq.
Qed.

Lemma escapeRegexp_round_trip_witness :
  escapeRegexp (lit "a.b") = escapeRegexp (lit "a" ++ lit ".b")
  /\ lit "a.b" = lit "a" ++ lit ".b".
Proof.
  assert (Heq : escapeRegexp (lit "a.b") = escapeRegexp (lit "a" ++ lit ".b"))
    by reflexivity.
  split; [exact Heq|].
  destruct escapeRegexp_round_trip as [_ Hinj]. exact (Hinj _ _ Heq).
Defined.

(** X2.  In an escaped text every metacharacter is quoted: the text is
    made of code units that are no metacharacters and of pairs of a
    backslash and a metacharacter, so no metacharacter is left bare and no
    backslash is left dangling. *)
Theorem escapeRegexp_quoted : forall s, quoted (escapeRegexp s) = true.
Proof.
  induction s as [|c s IH]; [reflexivity|].
  rewrite escapeRegexp_cons. destruct (classMatches regexpRe c) eqn:Ec.
  - cbn [app quoted]. rewrite N.eqb_refl.
    rewrite <- regexpRe_metacharacters, Ec, IH. reflexivity.
  - cbn [app quoted]. rewrite (not_meta_not_backslash c Ec).
    rewrite <- regexpRe_metacharacters, Ec, IH. reflexivity.
Qed.

Lemma escapeRegexp_length s :
  List.length (escapeRegexp s)
  = List.length s + List.length (filter (classMatches metacharacters) s).
Proof.
  induction s as [|c s IH]; [reflexivity|].
  rewrite escapeRegexp_cons. cbn [filter]. rewrite <- regexpRe_metacharacters in *.
  destruct (classMatches regexpRe c); cbn [app List.length]; rewrite IH; lia.
Qed.

(** X3.  Escaping adds one code unit per metacharacter of the text, so the
    result is at least as long as the text and at most twice as long; and
    it returns the text unchanged exactly when the text has no
    metacharacter. *)
Theorem escapeRegexp_growth : forall s,
  List.length (escapeRegexp s)
  = List.length s + List.length (filter (classMatches metacharacters) s)
  /\ List.length s <= List.length (escapeRegexp s) <= 2 * List.length s
  /\ (escapeRegexp s = s <-> forall c, In c s -> ~ In c metacharacters).
Proof.
  intros s. pose proof (escapeRegexp_length s) as Hlen.
  pose proof (filter_length_le (classMatches metacharacters) s) as Hle.
  split; [exact Hlen|]. split; [lia|]. split.
  - intros Hfix c Hc Hmeta.
    rewrite Hfix in Hlen.
    assert (Hin : In c (filter (classMatches metacharacters) s))
      by (apply filter_In; split; [assumption | now apply classMatches_In]).
    destruct (filter (classMatches metacharacters) s); [contradiction | cbn in Hlen; lia].
  - clear Hlen Hle. induction s as [|c s IH]; [reflexivity|]. intros Hnone.
    rewrite escapeRegexp_cons. destruct (classMatches regexpRe c) eqn:Ec.
    + apply classMatches_In in Ec. exfalso. apply (Hnone c); [now left | exact Ec].
    + cbn [app]. f_equal. apply IH. intros d Hd. apply Hnone. now right.
Qed.

End EscaperLaws.

(* ------------------------------------------------------------------ *)
(** ** The list item, continued *)
(* ------------------------------------------------------------------ *)

Section ItemLaws.

(** X4.  Every result of a repository with a name carries a drill-down
    action.  Its text is the clause of the repository, then, for a commit
    with an object id, [@] and the id, or, for a path, content or symbol
    match with a path, one space and the clause of the file; and one
    trailing space.  A commit without an id and a match without a path
    get the clause of the repository alone. *)
Theorem SearchResultItem_drilldown : forall (u r : jsstring) (stars : option Z) (b : MatchBody),
  r <> [] ->
  let item := SearchResultItem
                {| resultUrl := u;
                   match_ := {| repository := r; repoStars := stars; body := b |} |} in
  let repoClause := lit "r:^" ++ escapeRegexp r ++ lit "$" in
  let withFile (p : jsstring) :=
    match p with
    | [] => repoClause ++ lit " "
    | _ :: _ => repoClause ++ lit " f:" ++ escapeRegexp p ++ lit " "
    end in
  exists action,
    drilldownAction item = Some action
    /\ onActionSearchText action
       = match b with
         | MRepo _ _ _ _ _ => repoClause ++ lit " "
         | MCommit _ _ _ oid => repoClause ++ match oid with
                                              | [] => []
                                              | _ :: _ => lit "@" ++ oid
                                              end ++ lit " "
         | MPath p _ | MContent p _ | MSymbol p _ => withFile p
         end.
Proof.
  intros u r stars b Hr. cbv zeta.
  destruct r as [|c r]; [contradiction|].
  destruct b as [d f a p br | msg an ad [|o oid] | [|x p] cm | [|x p] lm | [|x p] sy];
    (eexists; split; [reflexivity|]);
    unfold makeDrilldownAction, buildDrilldownClauses, drilldownClauses;
    cbn [onActionSearchText repo revision file truthyString app join
         match_ repository];
    repeat rewrite <- app_assoc; reflexivity.
Qed.

Lemma SearchResultItem_drilldown_witness :
  exists action,
    drilldownAction (SearchResultItem fooResult) = Some action
    /\ onActionSearchText action = lit "r:^github\.com/a/foo$ f:foo\.go ".
Proof.
  assert (Hr : lit "github.com/a/foo" <> []) by discriminate.
  destruct (SearchResultItem_drilldown (lit "https://sourcegraph.com/github.com/a/foo")
              (lit "github.com/a/foo") None (MPath (lit "foo.go") None) Hr)
    as [action [Ha Ht]].
  exists action. split; [exact Ha | exact Ht].
Defined.

(** X5.  The accessories of a list item: a repository result shows its
    star count beside a star when the count is present and not zero, and
    nothing otherwise, never the repository name; every other result
    shows the repository name, without an icon, unless the name is
    empty.  No item shows more than one accessory. *)
Theorem SearchResultItem_accessories : forall searchResult : SearchResult,
  let m := match_ searchResult in
  accessories (SearchResultItem searchResult)
  = match body m with
    | MRepo _ _ _ _ _ =>
        match repoStars m with
        | Some stars =>
            if (stars =? 0)%Z then []
            else [{| text := numberToString stars; accessoryIcon := Some Star |}]
        | None => []
        end
    | _ =>
        match repository m with
        | [] => []
        | _ :: _ => [{| text := repository m; accessoryIcon := None |}]
        end
    end.
Proof.
  intros [u [r stars b]]. cbv zeta. cbn [match_ body repository repoStars].
  destruct b as [d f a p br | msg an ad oid | p c | p lm | p sy];
    unfold SearchResultItem; cbn [match_ body repository repoStars accessories];
    try (destruct r; reflexivity).
  destruct stars as [n|]; [|reflexivity].
  unfold truthyNumber. destruct (n =? 0)%Z eqn:En; cbn [negb text accessoryIcon]; [reflexivity|].
  now rewrite orb_true_r.
Qed.

End ItemLaws.

(* ------------------------------------------------------------------ *)
(** ** The line anchor *)
(* ------------------------------------------------------------------ *)

Section ParamLaws.

Lemma insertParam_perm p sorted : Permutation (insertParam p sorted) (p :: sorted).
Proof.
  induction sorted as [|q sorted IH]; cbn [insertParam]; [reflexivity|].
  destruct (JS.ltb (fst q) (fst p)); [|reflexivity].
  rewrite IH. apply perm_swap.
Qed.

Lemma paramsSort_perm params : Permutation (paramsSort params) params.
Proof.
  induction params as [|p params IH]; [reflexivity|].
  cbn [paramsSort fold_right]. fold (paramsSort params).
  rewrite insertParam_perm. now apply perm_skip.
Qed.

Lemma nameLe_trans p q r : nameLe p q -> nameLe q r -> nameLe p r.
Proof.
  unfold nameLe. intros Hpq Hqr.
  destruct (JS.ltb (fst r) (fst p)) eqn:E; [|reflexivity].
  pose proof (ltb_below _ _ _ E Hpq) as Hrq. congruence.
Qed.

Lemma insertParam_sorted p sorted :
  StronglySorted nameLe sorted -> StronglySorted nameLe (insertParam p sorted).
Proof.
  induction 1 as [|q sorted Hsorted IH Hq]; cbn [insertParam].
  - repeat constructor.
  - destruct (JS.ltb (fst q) (fst p)) eqn:Eqp.
    + constructor; [exact IH|].
      rewrite Forall_forall in *. intros x Hx.
      apply insertParam_In in Hx. destruct Hx as [-> | Hx]; [|now apply Hq].
      unfold nameLe. now apply ltb_asym.
    + constructor; [now constructor|].
      constructor; [exact Eqp|].
      rewrite Forall_forall in *. intros x Hx.
      apply (nameLe_trans p q x); [exact Eqp | now apply Hq].
Qed.

Lemma paramsSort_sorted params : StronglySorted nameLe (paramsSort params).
Proof.
  induction params as [|p params IH]; [constructor|].
  cbn [paramsSort fold_right]. now apply insertParam_sorted.
Qed.

(** Inserting keeps the pairs of each name in their order, the inserted
    pair before those already there. *)
Lemma insertParam_filter n p sorted :
  filter (hasName n) (insertParam p sorted)
  = filter (hasName n) [p] ++ filter (hasName n) sorted.
Proof.
  induction sorted as [|q sorted IH]; cbn [insertParam].
  - now rewrite app_nil_r.
  - destruct (JS.ltb (fst q) (fst p)) eqn:Eqp;
      [|cbn [filter]; destruct (hasName n p); reflexivity].
    cbn [filter] in *. rewrite IH.
    destruct (hasName n p) eqn:Ep, (hasName n q) eqn:Eq; try reflexivity.
    apply hasName_true in Ep, Eq. rewrite Ep, Eq, ltb_irrefl in Eqp. discriminate.
Qed.

Lemma paramsSort_filter n params :
  filter (hasName n) (paramsSort params) = filter (hasName n) params.
Proof.
  induction params as [|p params IH]; [reflexivity|].
  cbn [paramsSort fold_right]. fold (paramsSort params).
  rewrite insertParam_filter, IH. cbn [filter]. destruct (hasName n p); reflexivity.
Qed.

Lemma others_all key params :
  existsb (hasName key) params = false -> others key params = params.
Proof.
  induction params as [|p params IH]; [reflexivity|].
  cbn [existsb]. intros Hex. apply orb_false_iff in Hex. destruct Hex as [Hp Hex].
  unfold others in *. cbn [filter]. rewrite Hp. cbn [negb]. now rewrite IH.
Qed.

Lemma setFirst_perm key value params :
  existsb (hasName key) params = true ->
  Permutation (setFirst key value params) ((key, value) :: others key params).
Proof.
  induction params as [|p params IH]; [discriminate|].
  cbn [existsb setFirst]. unfold others in *. cbn [filter].
  destruct (hasName key p) eqn:Ep; cbn [negb orb]; [reflexivity|].
  intros Hex. rewrite (IH Hex). apply perm_swap.
Qed.

Lemma paramsSet_perm key value params :
  Permutation (paramsSet key value params) ((key, value) :: others key params).
Proof.
  unfold paramsSet. destruct (existsb (hasName key) params) eqn:Eex.
  - now apply setFirst_perm.
  - rewrite (others_all _ _ Eex). symmetry. apply Permutation_cons_append.
Qed.

(** Setting a parameter leaves the pairs of every other name as they were,
    in their order, and leaves exactly one pair of the name set. *)
Lemma setFirst_filter_other key value n params :
  n <> key ->
  filter (hasName n) (setFirst key value params) = filter (hasName n) params.
Proof.
  intros Hn. induction params as [|p params IH]; [reflexivity|].
  cbn [setFirst]. destruct (hasName key p) eqn:Ep.
  - cbn [filter]. apply hasName_true in Ep.
    assert (Hk : hasName n (key, value) = false).
    { destruct (hasName n (key, value)) eqn:E; [|reflexivity].
      apply hasName_true in E. cbn in E. congruence. }
    assert (Hp : hasName n p = false).
    { destruct (hasName n p) eqn:E; [|reflexivity].
      apply hasName_true in E. congruence. }
    rewrite Hk, Hp. clear IH.
    induction params as [|q params IH]; [reflexivity|].
    cbn [filter]. destruct (hasName key q) eqn:Eq; cbn [negb filter].
    + assert (Hq : hasName n q = false).
      { destruct (hasName n q) eqn:E; [|reflexivity].
        apply hasName_true in E, Eq. congruence. }
      now rewrite Hq.
    + destruct (hasName n q); now rewrite IH.
  - cbn [filter]. now rewrite IH.
Qed.

Lemma paramsSet_filter_other key value n params :
  n <> key ->
  filter (hasName n) (paramsSet key value params) = filter (hasName n) params.
Proof.
  intros Hn. unfold paramsSet. destruct (existsb (hasName key) params).
  - now apply setFirst_filter_other.
  - rewrite filter_app. cbn [filter].
    assert (Hk : hasName n (key, value) = false).
    { destruct (hasName n (key, value)) eqn:E; [|reflexivity].
      apply hasName_true in E. cbn in E. congruence. }
    rewrite Hk. apply app_nil_r.
Qed.

Lemma filter_others_nil key params : filter (hasName key) (others key params) = [].
Proof.
  unfold others. induction params as [|p params IH]; [reflexivity|].
  cbn [filter]. destruct (hasName key p) eqn:Ep; cbn [negb]; [exact IH|].
  cbn [filter]. now rewrite Ep.
Qed.

Lemma setFirst_filter_key key value params :
  existsb (hasName key) params = true ->
  filter (hasName key) (setFirst key value params) = [(key, value)].
Proof.
  induction params as [|p params IH]; [discriminate|].
  cbn [existsb setFirst]. destruct (hasName key p) eqn:Ep; cbn [orb].
  - intros _. cbn [filter].
    assert (Hk : hasName key (key, value) = true) by (now apply hasName_true).
    rewrite Hk. f_equal. apply filter_others_nil.
  - intros Hex. cbn [filter]. rewrite Ep. now apply IH.
Qed.

Lemma filter_none key params :
  existsb (hasName key) params = false -> filter (hasName key) params = [].
Proof.
  induction params as [|p params IH]; [reflexivity|].
  cbn [existsb filter]. intros Hex. apply orb_false_iff in Hex.
  destruct Hex as [Hp Hex]. rewrite Hp. now apply IH.
Qed.

Lemma paramsSet_filter_key key value params :
  filter (hasName key) (paramsSet key value params) = [(key, value)].
Proof.
  unfold paramsSet. destruct (existsb (hasName key) params) eqn:Eex.
  - now apply setFirst_filter_key.
  - rewrite filter_app, (filter_none _ _ Eex). cbn [filter app].
    assert (Hk : hasName key (key, value) = true) by (now apply hasName_true).
    now rewrite Hk.
Qed.

(** X7.  [urlWithLineNumber] changes the query of the parsed URL and
    nothing else.  The new parameters are sorted by name; they are the
    anchor, with an empty value, and the parameters of the parent URL whose
    name is not the anchor's, each as often as before. *)
Theorem withLineNumber_sorted_contents : forall parsed line,
  let result := searchParams (withLineNumber parsed line) in
  StronglySorted nameLe result
  /\ Permutation result
       ((anchorName line, []) :: others (anchorName line) (searchParams parsed))
  /\ beforeQuery (withLineNumber parsed line) = beforeQuery parsed
  /\ hash (withLineNumber parsed line) = hash parsed.
Proof.
  intros parsed line. cbv zeta. unfold withLineNumber; cbn [searchParams beforeQuery hash].
  fold (anchorName line). repeat split.
  - apply paramsSort_sorted.
  - rewrite paramsSort_perm. apply paramsSet_perm.
Qed.

(** X8.  The parameters of one name keep their order: for every name but
    the anchor's, the pairs of that name are those of the parent URL, in
    the same order; of the anchor's name there is exactly one pair, even
    when the parent URL has several. *)
Theorem withLineNumber_keeps_order : forall parsed line n,
  filter (hasName n) (searchParams (withLineNumber parsed line))
  = if JS.eqb n (anchorName line)
    then [(anchorName line, [])]
    else filter (hasName n) (searchParams parsed).
Proof.
  intros parsed line n. unfold withLineNumber; cbn [searchParams].
  fold (anchorName line). rewrite paramsSort_filter.
  destruct (JS.eqb n (anchorName line)) eqn:En.
  - apply eqb_eq in En. subst n. apply paramsSet_filter_key.
  - apply paramsSet_filter_other. intros Heq. subst n.
    assert (Hrefl : JS.eqb (anchorName line) (anchorName line) = true) by (now apply eqb_eq).
    congruence.
Qed.

Lemma insertParam_head p sorted :
  StronglySorted nameLe (p :: sorted) -> insertParam p sorted = p :: sorted.
Proof.
  intros Hs. destruct sorted as [|q sorted]; [reflexivity|].
  cbn [insertParam]. apply StronglySorted_inv in Hs. destruct Hs as [_ Hall].
  apply Forall_inv in Hall. unfold nameLe in Hall. now rewrite Hall.
Qed.

Lemma paramsSort_of_sorted params :
  StronglySorted nameLe params -> paramsSort params = params.
Proof.
  induction params as [|p params IH]; [reflexivity|].
  intros Hs. cbn [paramsSort fold_right]. fold (paramsSort params).
  rewrite IH by (now apply StronglySorted_inv in Hs). now apply insertParam_head.
Qed.

Lemma others_none key params :
  filter (hasName key) params = [] -> others key params = params.
Proof.
  unfold others. induction params as [|q params IH]; [reflexivity|].
  cbn [filter]. destruct (hasName key q); [discriminate|].
  cbn [negb]. intros Hrest. f_equal. now apply IH.
Qed.

Lemma setFirst_same key value params :
  filter (hasName key) params = [(key, value)] -> setFirst key value params = params.
Proof.
  induction params as [|p params IH]; [discriminate|].
  cbn [filter setFirst]. destruct (hasName key p) eqn:Ep.
  - intros [= -> Hrest]. f_equal. now apply others_none.
  - intros Hf. f_equal. now apply IH.
Qed.

(** X9.  Setting the anchor of the same line twice is the same as setting
    it once: a URL that already went through [urlWithLineNumber] comes out
    unchanged. *)
Theorem withLineNumber_idempotent : forall parsed line,
  withLineNumber (withLineNumber parsed line) line = withLineNumber parsed line.
Proof.
  intros parsed line. unfold withLineNumber; cbn [searchParams beforeQuery hash].
  fold (anchorName line).
  set (once := paramsSort (paramsSet (anchorName line) [] (searchParams parsed))).
  assert (Hsorted : StronglySorted nameLe once) by apply paramsSort_sorted.
  assert (Hkey : filter (hasName (anchorName line)) once = [(anchorName line, [])])
    by (unfold once; rewrite paramsSort_filter; apply paramsSet_filter_key).
  assert (Hset : paramsSet (anchorName line) [] once = once).
  { unfold paramsSet.
    destruct (existsb (hasName (anchorName line)) once) eqn:E.
    - now apply setFirst_same.
    - rewrite (filter_none _ _ E) in Hkey. discriminate. }
  now rewrite Hset, (paramsSort_of_sorted _ Hsorted).
Qed.

(** X6.  The anchor is the first parameter of the derived URL exactly when
    no parameter of the parent URL has a name that sorts before the
    anchor's, by code units. *)
Theorem urlWithLineNumber_anchor_first : forall parsed line,
  firstParamName (withLineNumber parsed line) = Some (anchorName line)
  <-> forall p, In p (searchParams parsed) -> JS.ltb (fst p) (anchorName line) = false.
Proof. intros parsed line. apply anchor_first_iff. Qed.

End ParamLaws.

(* ------------------------------------------------------------------ *)
(** ** The result view, continued *)
(* ------------------------------------------------------------------ *)

Section ViewLaws.
Context `{UrlPlatform} `{Markdown}.

(** X10.  A text file of a whole number of kilobytes above 50 is not
    rendered: the notice names that number, "File too large to render
    (kKB)". *)
Theorem renderBlob_whole_kilobytes : forall (b : BlobContents) (k : Z),
  binary b = false -> content b <> [] -> (50 < k)%Z -> byteSize b = (1024 * k)%Z ->
  renderBlob (Some b)
  = quoteBlock (lit "File too large to render (" ++ numberToString k ++ lit "KB)").
Proof.
  intros b k Hb Hc Hk Hsize. unfold renderBlob. rewrite Hb.
  destruct (content b) as [|c s]; [contradiction|]. cbn [truthyString].
  assert (Hbig : greaterThan (div1024 (byteSize b)) 50 = true)
    by (apply greaterThan_50; lia).
  rewrite Hbig, Hsize, over1024ToString_whole by lia. reflexivity.
Qed.

(** X11.  [ResultView] fires the file query only for a repository or a
    path result, and only while the query has not been called: for a
    repository it asks for [README.md] at the first listed branch, or at
    the empty revision when there is none; for a path it asks for the path
    at the commit of the match, or at the empty revision.  A commit result
    and the multi-result views never fire it, and nothing fires it once it
    has been called. *)
Theorem ResultView_fired : forall (searchResult : SearchResult) (fileContents : QueryResult),
  let m := match_ searchResult in
  fired (ResultView searchResult fileContents)
  = if called fileContents then None
    else match body m with
         | MRepo _ _ _ _ branches =>
             Some {| varRepo := Dispatch.repository m;
                     varRev := match branches with
                               | Some (b :: _) => b
                               | _ => []
                               end;
                     varPath := lit "README.md" |}
         | MPath path commit =>
             Some {| varRepo := Dispatch.repository m;
                     varRev := match commit with Some c => c | None => [] end;
                     varPath := path |}
         | MCommit _ _ _ _ | MContent _ _ | MSymbol _ _ => None
         end.
Proof.
  intros [u [r stars b]] [c d e]. cbv zeta.
  unfold ResultView; cbn [match_ body Dispatch.repository called data error].
  destruct b as [ds f a p br | msg an ad oid | p cm | p lm | p sy], c;
    cbn [negb fired]; try reflexivity.
  - destruct d; reflexivity.
  - unfold firstBranch. destruct br as [[|b rest]|]; try reflexivity.
    now rewrite orEmpty_eq.
  - destruct d; [reflexivity|]. destruct e; reflexivity.
  - now rewrite orEmpty_eq.
Qed.

(** X12.  Once the file query has returned data, the repository view and
    the path view render the blob under a rule, whatever the error field
    holds; when the data has no repository, no commit or no blob, they
    render the notice "Blob not found" there. *)
Theorem ResultView_data : forall url r stars d e,
  let rendered :=
    match blobOf d with
    | Some b => renderBlob (Some b)
    | None => quoteBlock (lit "Blob not found")
    end in
  (forall ds f a p br,
     markdownOf (ResultView
                   {| resultUrl := url;
                      match_ := {| Dispatch.repository := r; repoStars := stars;
                                   body := MRepo ds f a p br |} |}
                   {| called := true; data := Some d; error := e |})
     = bold r ++ nl ++ nl ++ orEmpty ds ++ nl ++ nl ++ lit "---" ++ nl ++ nl
         ++ rendered)
  /\ (forall path c,
        markdownOf (ResultView
                      {| resultUrl := url;
                         match_ := {| Dispatch.repository := r; repoStars := stars;
                                      body := MPath path c |} |}
                      {| called := true; data := Some d; error := e |})
        = bold r ++ nl ++ nl ++ codeBlock path ++ nl ++ nl ++ lit "---" ++ nl ++ nl
            ++ rendered)
  /\ (blobOf d = None
      <-> Detail.repository d = None
          \/ (exists rd, Detail.repository d = Some rd
                         /\ (commit rd = None
                             \/ exists cd, commit rd = Some cd /\ blob cd = None))).
Proof.
  intros url r stars d e. cbv zeta. split; [|split].
  - intros. unfold ResultView, markdownOf;
      cbn [match_ body called data error negb view Dispatch.repository].
    destruct (blobOf d); cbn [renderBlob]; repeat rewrite <- app_assoc; reflexivity.
  - intros. unfold ResultView, markdownOf;
      cbn [match_ body called data error negb view Dispatch.repository].
    destruct (blobOf d); cbn [renderBlob]; repeat rewrite <- app_assoc; reflexivity.
  - unfold blobOf. destruct (Detail.repository d) as [rd|]; [|tauto].
    destruct (commit rd) as [cd|] eqn:Ec.
    + split.
      * intros Hb. right. exists rd. split; [reflexivity|]. right. now exists cd.
      * intros [Hd | [rd' [[= <-] [Hc | [cd' [Hc Hb]]]]]]; congruence.
    + split; [|reflexivity]. intros _. right. exists rd. split; [reflexivity|]. now left.
Qed.

(** X13.  Which view a result gets does not depend on the file query: a
    content or a symbol match always gets the multi-result list over its
    own URL, every other match a [Detail] titled "View <type> result"
    whose markdown starts with the repository name in bold and a blank
    line. *)
Theorem ResultView_kind : forall (searchResult : SearchResult) (fileContents : QueryResult),
  let m := match_ searchResult in
  match body m with
  | MContent _ _ | MSymbol _ _ =>
      view (ResultView searchResult fileContents)
      = MultiView (MultiResultView (resultUrl searchResult) m)
  | _ =>
      exists content,
        view (ResultView searchResult fileContents)
        = DetailView (lit "View " ++ type m ++ lit " result")
                     (bold (Dispatch.repository m) ++ nl ++ nl ++ content)
  end.
Proof.
  intros [u [r stars b]] [c d e]. cbv zeta.
  unfold ResultView; cbn [match_ body Dispatch.repository called data error resultUrl].
  destruct b as [ds f a p br | msg an ad oid | p cm | p lm | p sy]; try reflexivity.
  - destruct c; cbn [negb]; [destruct d|]; eexists; reflexivity.
  - eexists; reflexivity.
  - destruct c; cbn [negb]; [destruct d; [|destruct e]|]; eexists; reflexivity.
Qed.

End ViewLaws.

Lemma renderBlob_whole_kilobytes_witness :
  @renderBlob plainMarkdown (Some sixtyKB) = lit "> File too large to render (60KB)".
Proof.
  apply (@renderBlob_whole_kilobytes plainMarkdown sixtyKB 60);
    [reflexivity | discriminate | reflexivity | reflexivity].
Defined.

(* ------------------------------------------------------------------ *)
(** ** The session, over whole traces *)
(* ------------------------------------------------------------------ *)

Section SessionLaws.

Lemma existsb_snoc {A} (f : A -> bool) l x : existsb f (l ++ [x]) = existsb f l || f x.
Proof. rewrite existsb_app. cbn. now rewrite orb_false_r. Qed.

Lemma sinceLastSearch_no_search trace :
  existsb isCallSearch trace = false -> sinceLastSearch trace = trace.
Proof.
  destruct trace as [|e rest]; [reflexivity|].
  cbn [existsb sinceLastSearch]. intros Hex. apply orb_false_iff in Hex.
  destruct Hex as [He Hrest]. now rewrite Hrest, He.
Qed.

Lemma sinceLastSearch_snoc trace e :
  sinceLastSearch (trace ++ [e])
  = if isCallSearch e then [] else sinceLastSearch trace ++ [e].
Proof.
  induction trace as [|e0 trace IH].
  - cbn. destruct (isCallSearch e); reflexivity.
  - cbn [app sinceLastSearch]. rewrite existsb_snoc, IH.
    destruct (existsb isCallSearch trace) eqn:Etrace; cbn [orb]; [reflexivity|].
    destruct (isCallSearch e) eqn:Ee; [reflexivity|].
    destruct (isCallSearch e0); reflexivity.
Qed.

Lemma run_results trace :
  results (state (run initial trace)) = flat_map resultBatch (sinceLastSearch trace).
Proof.
  induction trace as [|e trace IH] using rev_ind; [reflexivity|].
  rewrite run_snoc, sinceLastSearch_snoc.
  destruct e as [searchText pattern | g cb | g o]; cbn [isCallSearch step].
  - reflexivity.
  - rewrite flat_map_app. cbn [flat_map resultBatch].
    destruct cb; cbn [fold setState show state results]; rewrite IH, ?app_nil_r; reflexivity.
  - rewrite flat_map_app. cbn [flat_map resultBatch]. rewrite app_nil_r, <- IH.
    destruct o; reflexivity.
Qed.

(** X14.  The results of the state are the batches [onResults] was handed
    since the last [search()] call, one after the other in the order they
    arrived, whatever generation they belong to: nothing is reordered,
    merged or dropped, and nothing from before the call is left. *)
Theorem results_since_last_search : forall trace,
  results (state (run initial trace)) = flat_map resultBatch (sinceLastSearch trace)
  /\ List.length (results (state (run initial trace)))
     = list_sum (map (fun e => List.length (resultBatch e)) (sinceLastSearch trace)).
Proof.
  intros trace. rewrite run_results. split; [reflexivity|].
  induction (sinceLastSearch trace) as [|e events IH]; [reflexivity|].
  cbn [flat_map map list_sum]. now rewrite length_app, IH.
Qed.

(** X15.  The suggestions of the state, since the last [search()] call:
    first the batches that were pushed to the top, the latest first, then
    the batches that were appended, the earliest first. *)
Theorem suggestions_since_last_search : forall trace,
  let events := sinceLastSearch trace in
  suggestions (state (run initial trace))
  = List.concat (rev (flat_map topBatch events)) ++ flat_map bottomBatch events.
Proof.
  cbv zeta. induction trace as [|e trace IH] using rev_ind; [reflexivity|].
  rewrite run_snoc, sinceLastSearch_snoc.
  destruct e as [searchText pattern | g cb | g o]; cbn [isCallSearch step].
  - reflexivity.
  - rewrite !flat_map_app. cbn [flat_map topBatch bottomBatch].
    destruct cb as [batch | batch [|] | alert | progress];
      cbn [fold setState show state suggestions]; rewrite IH, ?app_nil_r; try reflexivity.
    + rewrite rev_app_distr. cbn [rev app List.concat]. now rewrite app_assoc.
    + now rewrite app_assoc.
  - rewrite !flat_map_app. cbn [flat_map topBatch bottomBatch]. rewrite !app_nil_r, <- IH.
    destruct o; reflexivity.
Qed.

Lemma lastProgress_snoc events e :
  lastProgress (events ++ [e])
  = match e with
    | Deliver _ (onProgress p) => Some p
    | _ => lastProgress events
    end.
Proof.
  induction events as [|e0 events IH].
  - cbn. destruct e as [| g [] |]; reflexivity.
  - cbn [app lastProgress]. rewrite IH.
    destruct e as [| g [] |]; try reflexivity.
Qed.

(** X16.  The summary is the text of the last progress report since the
    last [search()] call; without such a report it is [null] after a
    [search()] call and the empty string before the first. *)
Theorem summary_since_last_search : forall trace,
  summary (state (run initial trace))
  = match lastProgress (sinceLastSearch trace) with
    | Some p => Some (summaryText p)
    | None => if existsb isCallSearch trace then None else Some []
    end.
Proof.
  induction trace as [|e trace IH] using rev_ind; [reflexivity|].
  rewrite run_snoc, sinceLastSearch_snoc, existsb_snoc.
  destruct e as [searchText pattern | g cb | g o]; cbn [isCallSearch step].
  - cbn [lastProgress]. now rewrite orb_true_r.
  - rewrite lastProgress_snoc, orb_false_r.
    destruct cb; cbn [fold setState show state summary]; try exact IH. reflexivity.
  - rewrite lastProgress_snoc, orb_false_r, <- IH. destruct o; reflexivity.
Qed.

(** X17.  [isLoading] is true exactly when the last thing that happened,
    callbacks apart, is a [search()] call: every settling of a promise, of
    whichever generation, turns it off, and only a new call turns it on. *)
Theorem isLoading_iff : forall trace,
  isLoading (state (run initial trace)) = true
  <-> exists before searchText pattern deliveries,
        trace = before ++ CallSearch searchText pattern :: deliveries
        /\ forallb isDeliver deliveries = true.
Proof.
  induction trace as [|e trace IH] using rev_ind.
  - split; [discriminate|]. intros [[|? ?] [? [? [? [Heq _]]]]]; discriminate.
  - rewrite run_snoc.
    destruct e as [searchText pattern | g cb | g o]; cbn [step].
    + split; [|reflexivity]. intros _. exists trace, searchText, pattern, []. now split.
    + assert (Hsame : isLoading (state (fold cb (run initial trace)))
                      = isLoading (state (run initial trace)))
        by (destruct cb; reflexivity).
      rewrite Hsame, IH. split.
      * intros [before [t [p [ds [-> Hds]]]]].
        exists before, t, p, (ds ++ [Deliver g cb]). split.
        -- now rewrite <- app_assoc.
        -- rewrite forallb_app, Hds. reflexivity.
      * intros [before [t [p [ds [Heq Hds]]]]].
        destruct ds as [|d ds] using rev_ind.
        -- apply (f_equal (@rev _)) in Heq. rewrite !rev_app_distr in Heq.
           cbn in Heq. discriminate.
        -- clear IHds. rewrite app_comm_cons, app_assoc in Heq.
           apply app_inj_tail in Heq. destruct Heq as [-> _].
           exists before, t, p, ds. split; [reflexivity|].
           rewrite forallb_app in Hds. now apply andb_true_iff in Hds.
    + assert (Hoff : isLoading (state (settle o (run initial trace))) = false)
        by (destruct o; reflexivity).
      rewrite Hoff. split; [discriminate|].
      intros [before [t [p [ds [Heq Hds]]]]].
      destruct ds as [|d ds] using rev_ind.
      * apply (f_equal (@rev _)) in Heq. rewrite !rev_app_distr in Heq.
        cbn in Heq. discriminate.
      * rewrite app_comm_cons, app_assoc in Heq.
        apply app_inj_tail in Heq. destruct Heq as [_ <-].
        rewrite forallb_app in Hds. cbn in Hds. rewrite andb_false_r in Hds. discriminate.
Qed.

(** X18.  The toasts shown are a log: every alert and every rejected
    promise adds one toast, in the order they happen; nothing else shows a
    toast and none is ever taken back. *)
Theorem toasts_log : forall s trace,
  toasts (run s trace) = toasts s ++ flat_map toastOf trace.
Proof.
  intros s trace. induction trace as [|e trace IH] using rev_ind.
  - cbn. now rewrite app_nil_r.
  - rewrite run_snoc, flat_map_app, app_assoc, <- IH. cbn [flat_map].
    destruct e as [searchText pattern | g cb | g o]; cbn [step toastOf].
    + cbn. now rewrite app_nil_r.
    + destruct cb; cbn; rewrite ?app_nil_r; reflexivity.
    + destruct o; cbn; rewrite ?app_nil_r; reflexivity.
Qed.

(** X19.  The controllers: [performSearch] has been invoked once per
    [search()] call, with the texts and patterns of the calls in order;
    [cancelRef] holds the controller of the last call; and [abort()] has
    been called on the controller of every earlier call and on no other,
    so at most one controller is not aborted. *)
Theorem controllers_invariant : forall trace,
  let s := run initial trace in
  let n := List.length (performed s) in
  performed s = flat_map searchCall trace
  /\ cancelRef s = match n with O => None | S k => Some k end
  /\ aborted s = rev (seq 0 (Nat.pred n)).
Proof.
  cbv zeta. induction trace as [|e trace IH] using rev_ind; [repeat split|].
  rewrite run_snoc, flat_map_app. cbn [flat_map].
  destruct IH as [Hp [Hc Ha]].
  destruct e as [searchText pattern | g cb | g o]; cbn [step searchCall].
  - cbn [search performed cancelRef aborted]. rewrite length_app, app_nil_r, Hp.
    cbn [List.length]. rewrite Nat.add_1_r. repeat split.
    rewrite Hc, Ha, <- Hp. cbn [Nat.pred].
    destruct (List.length (performed (run initial trace))) as [|k]; [reflexivity|].
    cbn [Nat.pred]. rewrite seq_S, rev_app_distr. reflexivity.
  - rewrite app_nil_r.
    assert (Hsame : performed (fold cb (run initial trace)) = performed (run initial trace)
                    /\ cancelRef (fold cb (run initial trace)) = cancelRef (run initial trace)
                    /\ aborted (fold cb (run initial trace)) = aborted (run initial trace))
      by (destruct cb; repeat split).
    destruct Hsame as [-> [-> ->]]. now repeat split.
  - rewrite app_nil_r.
    assert (Hsame : performed (settle o (run initial trace)) = performed (run initial trace)
                    /\ cancelRef (settle o (run initial trace)) = cancelRef (run initial trace)
                    /\ aborted (settle o (run initial trace)) = aborted (run initial trace))
      by (destruct o; repeat split).
    destruct Hsame as [-> [-> ->]]. now repeat split.
Qed.

Lemma state_step_congr s1 s2 e :
  state s1 = state s2 -> isCallSearch e = false -> state (step s1 e) = state (step s2 e).
Proof.
  intros Hs He. destruct e as [searchText pattern | g cb | g o]; [discriminate| |].
  - destruct cb; cbn; now rewrite ?Hs.
  - destruct o; cbn; now rewrite Hs.
Qed.

(** X20.  A [search()] call forgets the past: the state after the call
    and whatever follows it does not depend on the session the call was
    made in. *)
Theorem search_forgets : forall s1 s2 searchText pattern trace,
  state (run s1 (CallSearch searchText pattern :: trace))
  = state (run s2 (CallSearch searchText pattern :: trace)).
Proof.
  intros s1 s2 searchText pattern trace.
  induction trace as [|e trace IH] using rev_ind; [reflexivity|].
  rewrite app_comm_cons, !run_snoc.
  destruct (isCallSearch e) eqn:Ee.
  - destruct e; try discriminate. reflexivity.
  - now apply state_step_congr.
Qed.

End SessionLaws.

(* ------------------------------------------------------------------ *)
(** ** The command *)
(* ------------------------------------------------------------------ *)

Section CommandLaws.
Context `{SourcegraphLib}.

(** The action of a suggestion item: a suggestion with a query that
    is not empty appends one space and the query to the current search
    text; a suggestion with no query, or an empty one, opens a detail
    whose markdown is the title, followed by a blank line and the
    description when there is a description that is not empty. *)
Lemma SuggestionItem_action : forall (searchText : jsstring) (s : Suggestion),
  suggestionItemAction (SuggestionItem searchText s)
  = match query s with
    | Some (c :: q) => ApplySuggestion (searchText ++ lit " " ++ c :: q)
    | _ => ViewSuggestion
             (suggestionTitle s
                ++ match suggestionDescription s with
                   | Some (c :: d) => nl ++ nl ++ c :: d
                   | _ => []
                   end)
    end.
Proof.
  intros searchText [t [[|c d]|] [[|c' q]|]]; reflexivity.
Qed.

(** X21.  What the command lists after a trace: the result items are the
    results delivered since the last [search()] call, in order.  The
    suggestions section is shown only when the session is not loading and
    no result has been delivered since the last call; it then holds the
    first three suggestions of the state, or fewer when there are fewer.
    It is hidden while loading and whenever there is a result. *)
Theorem SearchCommand_sections : forall (src : Sourcegraph) (searchText : jsstring)
                                        (trace : list Event),
  let st := state (run initial trace) in
  let shown := SearchCommand src searchText st in
  let delivered := flat_map resultBatch (sinceLastSearch trace) in
  listIsLoading shown = isLoading st
  /\ resultItems shown = map SearchResultItem delivered
  /\ match suggestionsSection shown with
     | Some section =>
         isLoading st = false
         /\ delivered = []
         /\ suggestionItems section
            = map (SuggestionItem searchText) (firstn 3 (suggestions st))
         /\ List.length (suggestionItems section)
            = Nat.min 3 (List.length (suggestions st))
     | None => isLoading st = true \/ delivered <> []
     end.
Proof.
  intros src searchText trace. cbv zeta.
  rewrite <- (run_results trace).
  set (st := state (run initial trace)).
  unfold SearchCommand; cbn [listIsLoading resultItems suggestionsSection].
  split; [reflexivity|]. split; [reflexivity|].
  destruct (isLoading st); cbn [negb andb]; [now left|].
  destruct (results st) as [|x xs]; cbn [List.length Nat.eqb].
  - cbn [suggestionItems]. repeat split.
    now rewrite length_map, length_firstn.
  - right. discriminate.
Qed.

End CommandLaws.
